(** * Jet Shooter: the simulation core of [src/jet_shooter.py]

    A shallow embedding of the per-frame simulation of the game: the sprite
    classes ([Player], [Projectile], [Bomb], [Explosion], [Enemy]), the
    spawner ([spawn_enemy]) and one iteration of the [while running] loop of
    [main] ([tick]).

    Representation choices.
    - Python [float] and pygame's [Vector2] coordinates are IEEE binary64
      numbers: Rocq's primitive [float].  Python [int] is [Z].
    - A pygame [Rect] is four integers; only the attributes the game reads
      are modelled.  The integers are unbounded (pygame stores C ints; the
      coordinates of the game stay far from their limits).
    - The module [random] is an oracle: a tape of draws consumed in program
      order, each draw checked against the range the call allows.
    - An exception is the result [Raised]; rendering, sound and the clock are
      left out (they do not feed back into the simulation state).
    - A sprite group is the list of its members in insertion order (pygame
      groups iterate over an insertion-ordered dict); [kill()] removes the
      sprite from every group, i.e. from the list that holds it.  The group
      [all_sprites] holds exactly the player and the members of [enemies],
      [projectiles] and [bombs], so it is not stored separately. *)

From Stdlib Require Import ZArith Lia List Bool.
From Stdlib Require Import Floats.PrimFloat Floats.FloatOps Floats.SpecFloat.
From stdpp Require Import base option list.

#[local] Open Scope Z_scope.
#[local] Set Warnings "-inexact-float".

(** ** Numbers *)

(** [int(f)] of Python: truncation toward zero; [nan] and the infinities
    raise ([None]). *)
Definition py_int (f : float) : option Z :=
  match Prim2SF f with
  | S754_zero _ => Some 0
  | S754_finite s m e =>
      let mag := if 0 <=? e then Z.pos m * 2 ^ e else Z.pos m / 2 ^ (- e) in
      Some (if s then - mag else mag)
  | S754_infinity _ => None
  | S754_nan => None
  end.

(** Conversion of a Python [int] to a [float] (round to nearest even). *)
Definition of_Z (z : Z) : float :=
  SF2Prim (binary_normalize prec emax z 0 false).

(** ** pygame.math.Vector2 *)

Module Vector2.

Record t := mk { x : float; y : float }.

Definition of_ints (p : Z * Z) : t := mk (of_Z (fst p)) (of_Z (snd p)).

Definition add (a b : t) : t := mk (x a + x b)%float (y a + y b)%float.

Definition sub (a b : t) : t := mk (x a - x b)%float (y a - y b)%float.

Definition scale (a : t) (k : float) : t := mk (x a * k)%float (y a * k)%float.

Definition length (a : t) : float := sqrt (x a * x a + y a * y a)%float.

(** [normalize()] raises [ValueError] on a vector of length zero. *)
Definition normalize (a : t) : option t :=
  let len := length a in
  if (len =? 0)%float then None
  else Some (mk (x a / len)%float (y a / len)%float).

End Vector2.

(** ** pygame.Rect *)

Module Rect.

Record t := mk { x : Z; y : Z; width : Z; height : Z }.

Definition left (r : t) : Z := x r.
Definition top (r : t) : Z := y r.
Definition right (r : t) : Z := x r + width r.
Definition bottom (r : t) : Z := y r + height r.
Definition center (r : t) : Z * Z := (x r + width r / 2, y r + height r / 2).

(** [surface.get_rect(center=c)] for a surface of size [w] x [h]. *)
Definition centered (w h : Z) (c : Z * Z) : t :=
  mk (fst c - w / 2) (snd c - h / 2) w h.

(** [r.center = c]. *)
Definition set_center (r : t) (c : Z * Z) : t :=
  centered (width r) (height r) c.

(** [a.colliderect(b)]: the boxes overlap with positive area; a rectangle of
    zero width or height collides with nothing. *)
Definition colliderect (a b : t) : bool :=
  if (width a =? 0) || (height a =? 0) || (width b =? 0) || (height b =? 0)
  then false
  else (Z.min (x a) (x a + width a) <? Z.max (x b) (x b + width b))
       && (Z.min (y a) (y a + height a) <? Z.max (y b) (y b + height b))
       && (Z.min (x b) (x b + width b) <? Z.max (x a) (x a + width a))
       && (Z.min (y b) (y b + height b) <? Z.max (y a) (y a + height a)).

End Rect.

(** ** Exceptions and the random oracle *)

Inductive Exn := ValueError | IndexError.

Inductive Draw :=
  | DInt (z : Z)        (* the value returned by one [random.randint] *)
  | DUnit (u : float).  (* the value returned by one [random.random()] *)

Definition Tape := list Draw.

Inductive Result (A : Type) :=
  | Done (a : A) (rest : Tape)
  | Raised (e : Exn)
  | BadTape.   (* the tape is not a run of the generator *)
Arguments Done {A} a rest.
Arguments Raised {A} e.
Arguments BadTape {A}.

Definition M (A : Type) : Type := Tape -> Result A.

Definition ret {A} (a : A) : M A := fun t => Done a t.

Definition bind {A B} (m : M A) (k : A -> M B) : M B :=
  fun t => match m t with
           | Done a t' => k a t'
           | Raised e => Raised e
           | BadTape => BadTape
           end.

Definition raise {A} (e : Exn) : M A := fun _ => Raised e.

Definition lift {A} (e : Exn) (o : option A) : M A :=
  match o with Some a => ret a | None => raise e end.

Notation "'do' x <- m ; k" := (bind m (fun x => k))
  (at level 10, x pattern, m at level 100, k at level 200).

Fixpoint mapM_ {A B} (f : A -> M B) (l : list A) : M (list B) :=
  match l with
  | [] => ret []
  | a :: l' => do b <- f a; do bs <- mapM_ f l'; ret (b :: bs)
  end.

Module random.

(** [random.randint(a, b)]: an integer [n] with [a <= n <= b]. *)
Definition randint (a b : Z) : M Z :=
  fun t => match t with
           | DInt z :: t' => if (a <=? z) && (z <=? b) then Done z t' else BadTape
           | _ => BadTape
           end.

(** [random.random()]: a float [u] with [0 <= u < 1]. *)
Definition random : M float :=
  fun t => match t with
           | DUnit u :: t' => if (0 <=? u)%float && (u <? 1)%float then Done u t' else BadTape
           | _ => BadTape
           end.

(** [random.uniform(a, b)] is [a + (b - a) * random()]. *)
Definition uniform (a b : float) : M float :=
  do u <- random; ret (a + (b - a) * u)%float.

(** [itertools.accumulate] on floats. *)
Fixpoint accumulate_from (acc : float) (ws : list float) : list float :=
  match ws with
  | [] => []
  | w :: ws' => let acc' := (acc + w)%float in acc' :: accumulate_from acc' ws'
  end.

Definition accumulate (ws : list float) : list float :=
  match ws with
  | [] => []
  | w :: ws' => w :: accumulate_from w ws'
  end.

(** [bisect.bisect_right(a, x, lo, hi)]. *)
Fixpoint bisect (fuel : nat) (a : list float) (x : float) (lo hi : nat) : nat :=
  match fuel with
  | O => lo
  | S fuel' =>
      if (lo <? hi)%nat then
        let mid := ((lo + hi) / 2)%nat in
        match a !! mid with
        | Some am => if (x <? am)%float then bisect fuel' a x lo mid
                     else bisect fuel' a x (mid + 1)%nat hi
        | None => lo
        end
      else lo
  end.

(** [random.choices(population, weights=weights, k=1)[0]]: the cumulative
    weights are bisected at [random() * total]. *)
Definition choices {A} (population : list A) (weights : list float) : M A :=
  let cum_weights := accumulate weights in
  if negb (List.length cum_weights =? List.length population)%nat then raise ValueError
  else
    match last cum_weights with
    | None => raise IndexError
    | Some lastw =>
        let total := (lastw + 0)%float in
        if (total <=? 0)%float then raise ValueError
        else if negb (is_finite total) then raise ValueError
        else
          do u <- random;
          let hi := (List.length population - 1)%nat in
          lift IndexError
            (population !! bisect (List.length cum_weights) cum_weights
                             (u * total)%float 0 hi)
    end.

End random.

(** ** Configuration *)

Definition WIDTH : Z := 900.
Definition HEIGHT : Z := 600.

Definition Color : Type := Z * Z * Z.
Definition NEON_PINK : Color := (255, 28, 179).
Definition NEON_YELLOW : Color := (255, 210, 20).

Inductive Element := Air | Water | Fire.

Inductive Kind := Beginner | Mid | Hard.

(** The result of a sprite's [update]: the sprite after the call and whether
    it is still alive ([false] when [update] called [self.kill()]); [None]
    when the call raised. *)
Definition Updated (A : Type) : Type := option (A * bool).

(** [group.update()]: every member is updated; the killed ones leave. *)
Fixpoint update_group {A} (upd : A -> Updated A) (l : list A) : option (list A) :=
  match l with
  | [] => Some []
  | a :: l' =>
      match upd a with
      | None => None
      | Some (a', alive) =>
          match update_group upd l' with
          | None => None
          | Some r => Some (if alive then a' :: r else r)
          end
      end
  end.

(** What the game takes from the machine it runs on: [math.sin] of the C
    library, and which projectile images [os.path.exists] finds. *)
Record Platform := mkPlatform {
  math_sin : float -> float;
  sprite_exists : Element -> bool }.

(** ** class Projectile *)

Module Projectile.

Record t := mk {
  pos : Vector2.t;
  vel : Vector2.t;
  element : Element;
  radius : Z;
  color : Color;
  rect : Rect.t }.

(** Side of the scaled sprite when the image file exists. *)
Definition sprite_size (el : Element) : Z :=
  match el with Air => 32 | Water => 18 | Fire => 28 end.

(** Radius of the procedural circle when it does not. *)
Definition fallback_radius (el : Element) : Z :=
  match el with Air => 16 | Water => 9 | Fire => 14 end.

Definition element_color (el : Element) : Color :=
  match el with Air => NEON_PINK | Water => (80, 160, 255) | Fire => NEON_YELLOW end.

(** [Projectile(pos, vel, element)]; [has_sprite] tells which branch of the
    constructor loads the image. *)
Definition init (has_sprite : bool) (p : Z * Z) (v : Vector2.t) (el : Element) : t :=
  if has_sprite then
    let size := sprite_size el in
    mk (Vector2.of_ints p) v el (size / 2) (element_color el) (Rect.centered size size p)
  else
    let r := fallback_radius el in
    mk (Vector2.of_ints p) v el r (element_color el) (Rect.centered (r * 2) (r * 2) p).

Definition off_screen (r : Rect.t) : bool :=
  (Rect.bottom r <? 0) || (HEIGHT <? Rect.top r) || (WIDTH <? Rect.left r)
  || (Rect.right r <? 0).

Definition update (s : t) : Updated t :=
  let pos' := Vector2.add (pos s) (vel s) in
  match py_int (Vector2.x pos'), py_int (Vector2.y pos') with
  | Some cx, Some cy =>
      let rect' := Rect.set_center (rect s) (cx, cy) in
      Some (mk pos' (vel s) (element s) (radius s) (color s) rect',
            negb (off_screen rect'))
  | _, _ => None
  end.

End Projectile.

(** ** class Player *)

(** The part of [pygame.key.get_pressed()] that [Player.update] reads. *)
Record Keys := mkKeys {
  K_LEFT : bool; K_a : bool; K_RIGHT : bool; K_d : bool;
  K_UP : bool; K_w : bool; K_DOWN : bool; K_s : bool }.

Module Player.

Record t := mk {
  speed : Z;
  rect : Rect.t;
  lives : Z;
  score : Z;
  element : Element;
  fire_cooldown : Z }.

Definition init (p : Z * Z) : t := mk 4 (Rect.centered 160 102 p) 3 0 Air 0.

Definition update (keys : Keys) (s : t) : t :=
  let dx := 0 in
  let dy := 0 in
  let dx := if K_LEFT keys || K_a keys then - speed s else dx in
  let dx := if K_RIGHT keys || K_d keys then speed s else dx in
  let dy := if K_UP keys || K_w keys then - speed s else dy in
  let dy := if K_DOWN keys || K_s keys then speed s else dy in
  let r := rect s in
  let x' := Z.max 10 (Z.min (WIDTH - 10 - Rect.width r) (Rect.x r + dx)) in
  let y' := Z.max 60 (Z.min (HEIGHT - 10 - Rect.height r) (Rect.y r + dy)) in
  let r' := Rect.mk x' y' (Rect.width r) (Rect.height r) in
  mk (speed s) r' (lives s) (score s) (element s)
     (if 0 <? fire_cooldown s then fire_cooldown s - 1 else fire_cooldown s).

(** The angles of the water spread, [(-0.15, 0, 0.15)]. *)
Definition spread : list float := [(-0.15)%float; of_Z 0; 0.15%float].

(** [fire()] returns the player after the call and the list of shots. *)
Definition fire (pf : Platform) (s : t) : t * list Projectile.t :=
  if 0 <? fire_cooldown s then (s, [])
  else
    let s' := mk (speed s) (rect s) (lives s) (score s) (element s) 14 in
    let '(cx, cy) := Rect.center (rect s) in
    let shots :=
      match element s with
      | Air =>
          [Projectile.init (sprite_exists pf Air) (cx, cy - 10)
             (Vector2.of_ints (0, - 8)) Air]
      | Water =>
          map (fun a =>
                 let vx := (math_sin pf a * of_Z 6)%float in
                 let vy := of_Z (- 6) in
                 Projectile.init (sprite_exists pf Water) (cx, cy - 10)
                   (Vector2.mk vx vy) Water)
              spread
      | Fire =>
          [Projectile.init (sprite_exists pf Fire) (cx, cy - 10)
             (Vector2.of_ints (0, - 12)) Fire]
      end in
    (s', shots).

End Player.

(** ** class Bomb *)

Module Bomb.

Record t := mk { pos : Vector2.t; vel : Vector2.t; rect : Rect.t }.

(** [Bomb(pos, target)]; raises when [target - pos] cannot be normalized. *)
Definition init (p target : Z * Z) : option t :=
  let pos0 := Vector2.of_ints p in
  match Vector2.normalize (Vector2.sub (Vector2.of_ints target) pos0) with
  | None => None
  | Some dir => Some (mk pos0 (Vector2.scale dir 4.5%float) (Rect.centered 10 10 p))
  end.

Definition off_screen (r : Rect.t) : bool :=
  (HEIGHT <? Rect.top r) || (WIDTH <? Rect.left r) || (Rect.right r <? 0).

Definition update (s : t) : Updated t :=
  let pos' := Vector2.add (pos s) (vel s) in
  match py_int (Vector2.x pos'), py_int (Vector2.y pos') with
  | Some cx, Some cy =>
      let rect' := Rect.set_center (rect s) (cx, cy) in
      Some (mk pos' (vel s) rect', negb (off_screen rect'))
  | _, _ => None
  end.

End Bomb.

(** ** class Explosion *)

Module Explosion.

Record t := mk {
  pos : Z * Z;
  radius : Z;
  color : Color;
  lifetime : Z;
  rect : Rect.t }.

Definition init (p : Z * Z) (r : Z) (c : Color) : t :=
  mk p r c 18 (Rect.centered (r * 2) (r * 2) p).

(** The redraw of the fading circle is left out. *)
Definition update (s : t) : Updated t :=
  let l := lifetime s - 1 in
  Some (mk (pos s) (radius s) (color s) l (rect s), negb (l <=? 0)).

End Explosion.

(** ** class Enemy *)

Module Enemy.

Record t := mk {
  kind : Kind;
  pos : Vector2.t;
  rect : Rect.t;
  hp : Z;
  speed : float;
  color : Color;
  direction : Vector2.t;
  shoot_timer : Z }.

Definition kind_hp (k : Kind) : Z :=
  match k with Beginner => 1 | Mid => 2 | Hard => 3 end.

Definition kind_speed (k : Kind) : float :=
  match k with Beginner => 1.0%float | Mid => 1.2%float | Hard => 0.9%float end.

Definition kind_color (k : Kind) : Color :=
  match k with
  | Beginner => (90, 200, 255)
  | Mid => (255, 120, 90)
  | Hard => (255, 80, 200)
  end.

(** [Enemy(pos, kind)]: the sway and the first shoot timer are drawn here. *)
Definition init (p : Z * Z) (k : Kind) : M t :=
  do sway <- random.uniform (-0.6)%float 0.6%float;
  do dir <- lift ValueError (Vector2.normalize (Vector2.mk sway (of_Z 1)));
  do timer <- random.randint 40 120;
  ret (mk k (Vector2.of_ints p) (Rect.centered 40 28 p) (kind_hp k) (kind_speed k)
          (kind_color k) dir timer).

Definition update (s : t) : Updated t :=
  let pos' := Vector2.add (pos s) (Vector2.scale (direction s) (speed s)) in
  match py_int (Vector2.x pos'), py_int (Vector2.y pos') with
  | Some cx, Some cy =>
      let rect' := Rect.set_center (rect s) (cx, cy) in
      Some (mk (kind s) pos' rect' (hp s) (speed s) (color s) (direction s)
               (shoot_timer s),
            negb (HEIGHT + 20 <? Rect.top rect'))
  | _, _ => None
  end.

Definition set_hp (s : t) (h : Z) : t :=
  mk (kind s) (pos s) (rect s) h (speed s) (color s) (direction s) (shoot_timer s).

Definition set_shoot_timer (s : t) (n : Z) : t :=
  mk (kind s) (pos s) (rect s) (hp s) (speed s) (color s) (direction s) n.

End Enemy.

(** ** spawn_enemy *)

Definition spawn_kinds : list Kind := [Beginner; Mid; Hard].
Definition spawn_weights : list float := [0.6%float; 0.3%float; 0.1%float].

Definition spawn_enemy : M Enemy.t :=
  do x <- random.randint 40 (WIDTH - 40);
  do choice <- random.choices spawn_kinds spawn_weights;
  Enemy.init (x, - 20) choice.

(** ** main: the state of the loop and one iteration *)

Inductive Key := K_ESCAPE | K_SPACE | K_1 | K_2 | K_3 | K_q | K_e | K_other.

Inductive Event := QUIT | KEYDOWN (key : Key) | OtherEvent.

Record Input := mkInput { keys : Keys; events : list Event }.

Record Game := mkGame {
  player : Player.t;
  enemies : list Enemy.t;
  projectiles : list Projectile.t;
  bombs : list Bomb.t;
  explosions : list Explosion.t;
  spawn_timer : Z;
  running : bool }.

Definition initial : Game :=
  mkGame (Player.init (WIDTH / 2, HEIGHT - 80)) [] [] [] [] 0 true.

Definition set_player (g : Game) (p : Player.t) : Game :=
  mkGame p (enemies g) (projectiles g) (bombs g) (explosions g) (spawn_timer g)
         (running g).

Definition set_running (g : Game) (b : bool) : Game :=
  mkGame (player g) (enemies g) (projectiles g) (bombs g) (explosions g)
         (spawn_timer g) b.

Definition set_element (p : Player.t) (el : Element) : Player.t :=
  Player.mk (Player.speed p) (Player.rect p) (Player.lives p) (Player.score p) el
            (Player.fire_cooldown p).

Definition set_lives (p : Player.t) (n : Z) : Player.t :=
  Player.mk (Player.speed p) (Player.rect p) n (Player.score p) (Player.element p)
            (Player.fire_cooldown p).

Definition set_score (p : Player.t) (n : Z) : Player.t :=
  Player.mk (Player.speed p) (Player.rect p) (Player.lives p) n (Player.element p)
            (Player.fire_cooldown p).

(** [order = ['Air', 'Water', 'Fire']], [order.index] and [order[i % 3]]. *)
Definition order_index (el : Element) : Z :=
  match el with Air => 0 | Water => 1 | Fire => 2 end.

Definition order_nth (i : Z) : Element :=
  match i mod 3 with 0 => Air | 1 => Water | _ => Fire end.

Definition handle_event (pf : Platform) (g : Game) (ev : Event) : Game :=
  match ev with
  | QUIT => set_running g false
  | KEYDOWN K_ESCAPE => set_running g false
  | KEYDOWN K_SPACE =>
      let '(p', shots) := Player.fire pf (player g) in
      mkGame p' (enemies g) (projectiles g ++ shots) (bombs g) (explosions g)
             (spawn_timer g) (running g)
  | KEYDOWN K_1 => set_player g (set_element (player g) Air)
  | KEYDOWN K_2 => set_player g (set_element (player g) Water)
  | KEYDOWN K_3 => set_player g (set_element (player g) Fire)
  | KEYDOWN K_q =>
      let idx := order_index (Player.element (player g)) in
      set_player g (set_element (player g) (order_nth (idx - 1)))
  | KEYDOWN K_e =>
      let idx := order_index (Player.element (player g)) in
      set_player g (set_element (player g) (order_nth (idx + 1)))
  | KEYDOWN K_other => g
  | OtherEvent => g
  end.

(** Spawn logic. *)
Definition spawn_phase (g : Game) : M Game :=
  let timer := spawn_timer g - 1 in
  if timer <=? 0 then
    do timer' <- random.randint 18 42;
    do e <- spawn_enemy;
    ret (mkGame (player g) (enemies g ++ [e]) (projectiles g) (bombs g)
                (explosions g) timer' (running g))
  else
    ret (mkGame (player g) (enemies g) (projectiles g) (bombs g) (explosions g)
                timer (running g)).

(** [all_sprites.update(keys)], then [projectiles.update()], [bombs.update()]
    and [explosions.update()]: projectiles and bombs, members of two of the
    updated groups, move twice. *)
Definition update_phase (ks : Keys) (g : Game) : option Game :=
  let p := Player.update ks (player g) in
  es ← update_group Enemy.update (enemies g);
  ps ← update_group Projectile.update (projectiles g);
  bs ← update_group Bomb.update (bombs g);
  ps' ← update_group Projectile.update ps;
  bs' ← update_group Bomb.update bs;
  xs ← update_group Explosion.update (explosions g);
  Some (mkGame p es ps' bs' xs (spawn_timer g) (running g)).

(** Enemy shooting, for one enemy of [list(enemies)]: the enemy after the
    iteration and the bombs it added. *)
Definition shoot (target : Z * Z) (e : Enemy.t) : M (Enemy.t * list Bomb.t) :=
  match Enemy.kind e with
  | Hard =>
      let timer := Enemy.shoot_timer e - 1 in
      if timer <=? 0 then
        do timer' <- random.randint 60 140;
        do bomb <- lift ValueError (Bomb.init (Rect.center (Enemy.rect e)) target);
        ret (Enemy.set_shoot_timer e timer', [bomb])
      else ret (Enemy.set_shoot_timer e timer, [])
  | _ => ret (e, [])
  end.

Definition shoot_phase (g : Game) : M Game :=
  do rs <- mapM_ (shoot (Rect.center (Player.rect (player g)))) (enemies g);
  ret (mkGame (player g) (map fst rs) (projectiles g)
              (bombs g ++ concat (map snd rs)) (explosions g) (spawn_timer g)
              (running g)).

(** [pygame.sprite.spritecollideany(sprite, group)] on the rectangles: the
    first member of the group, and its index, whose rectangle the sprite's
    rectangle collides with. *)
Definition spritecollideany {A} (r : Rect.t) (rect_of : A -> Rect.t) (group : list A)
  : option (nat * A) :=
  list_find (fun s => Rect.colliderect r (rect_of s) = true) group.

(** What the projectile loop changes. *)
Record Combat := mkCombat {
  c_enemies : list Enemy.t;
  c_explosions : list Explosion.t;
  c_score : Z }.

(** One iteration of [for proj in list(projectiles)]: the state after it and
    whether the projectile stays in its group. *)
Definition hit_one (proj : Projectile.t) (c : Combat) : Combat * bool :=
  match spritecollideany (Projectile.rect proj) Enemy.rect (c_enemies c) with
  | Some (i, hit) =>
      let effectiveness := 1 in
      let hit' := Enemy.set_hp hit (Enemy.hp hit - effectiveness) in
      let boom := Explosion.init (Rect.center (Projectile.rect proj))
                    (Projectile.radius proj * 2) (Projectile.color proj) in
      if Enemy.hp hit' <=? 0 then
        (mkCombat (delete i (c_enemies c)) (c_explosions c ++ [boom]) (c_score c + 5),
         false)
      else
        (mkCombat (<[i := hit']> (c_enemies c)) (c_explosions c ++ [boom]) (c_score c),
         false)
  | None => (c, true)
  end.

Fixpoint hit_loop (projs : list Projectile.t) (c : Combat)
  : list Projectile.t * Combat :=
  match projs with
  | [] => ([], c)
  | proj :: rest =>
      let '(c1, stays) := hit_one proj c in
      let '(kept, c2) := hit_loop rest c1 in
      (if stays then proj :: kept else kept, c2)
  end.

Definition hit_phase (g : Game) : Game :=
  let '(kept, c) :=
    hit_loop (projectiles g)
             (mkCombat (enemies g) (explosions g) (Player.score (player g))) in
  mkGame (set_score (player g) (c_score c)) (c_enemies c) kept (bombs g)
         (c_explosions c) (spawn_timer g) (running g).

(** Bombs hit the player. *)
Definition bomb_phase (g : Game) : Game :=
  let p := player g in
  match spritecollideany (Player.rect p) Bomb.rect (bombs g) with
  | None => g
  | Some _ =>
      match list_find (fun b => Rect.colliderect (Bomb.rect b) (Player.rect p) = true)
                      (bombs g) with
      | None => g
      | Some (i, b) =>
          let boom := Explosion.init (Rect.center (Bomb.rect b)) 36 NEON_YELLOW in
          let lives' := Player.lives p - 1 in
          mkGame (set_lives p lives') (enemies g) (projectiles g) (delete i (bombs g))
                 (explosions g ++ [boom]) (spawn_timer g)
                 (if lives' <=? 0 then false else running g)
      end
  end.

(** Enemies collide with the player. *)
Definition collide_phase (g : Game) : Game :=
  let p := player g in
  match spritecollideany (Player.rect p) Enemy.rect (enemies g) with
  | None => g
  | Some (i, collided) =>
      let lives' := Player.lives p - 1 in
      let boom := Explosion.init (Rect.center (Enemy.rect collided)) 28
                    (Enemy.color collided) in
      mkGame (set_lives p lives') (delete i (enemies g)) (projectiles g) (bombs g)
             (explosions g ++ [boom]) (spawn_timer g)
             (if lives' <=? 0 then false else running g)
  end.

(** The body of [while running]. *)
Definition tick (pf : Platform) (inp : Input) (g : Game) : M Game :=
  let g := fold_left (handle_event pf) (events inp) g in
  do g <- spawn_phase g;
  do g <- lift ValueError (update_phase (keys inp) g);
  do g <- shoot_phase g;
  ret (collide_phase (bomb_phase (hit_phase g))).

(** [while running: ...] over the inputs of successive frames. *)
Fixpoint run (pf : Platform) (inps : list Input) (g : Game) : M Game :=
  match inps with
  | [] => ret g
  | inp :: rest =>
      if running g then do g' <- tick pf inp g; run pf rest g' else ret g
  end.

(** The loop takes a step only while [running]; the draws are some run of
    the generator. *)
Definition step (pf : Platform) (g g' : Game) : Prop :=
  running g = true /\ exists inp tape tape', tick pf inp g tape = Done g' tape'.

Inductive reachable (pf : Platform) : Game -> Prop :=
  | reach_initial : reachable pf initial
  | reach_step g g' : reachable pf g -> step pf g g' -> reachable pf g'.

(** * Notions of the statements *)

(** Successive [Player.update] calls, one per frame, with the keys of each. *)
Definition updates (ks : list Keys) (s : Player.t) : Player.t :=
  fold_left (fun s k => Player.update k s) ks s.

(** ** Spawning *)

(** The sum of the weights as [random.choices] accumulates it. *)
Definition spawn_total : float := (0.6 + 0.3 + 0.1 + 0)%float.

(** The kind at a point [x] of [[0, total)]: Beginner below the cumulative
    weight 0.6, Mid from there up to 0.6 + 0.3, Hard above. *)
Definition kind_at (x : float) : Kind :=
  if (x <? 0.6 + 0.3)%float then if (x <? 0.6)%float then Beginner else Mid
  else Hard.

(** A value that [random.random()] can return. *)
Definition unit_draw (u : float) : Prop :=
  (0 <=? u)%float = true /\ (u <? 1)%float = true.

(** The sway vector before normalization, for the draw [v]. *)
Definition sway (v : float) : Vector2.t :=
  Vector2.mk (-0.6 + (0.6 - -0.6) * v)%float (of_Z 1).

(** The enemy [spawn_enemy] builds from its four draws. *)
Definition spawned (x : Z) (u : float) (dir : Vector2.t) (timer : Z) : Enemy.t :=
  let k := kind_at (u * spawn_total)%float in
  Enemy.mk k (Vector2.of_ints (x, - 20)) (Rect.centered 40 28 (x, - 20))
           (Enemy.kind_hp k) (Enemy.kind_speed k) (Enemy.kind_color k) dir timer.

(** The game after the spawn step: the new countdown and the new enemies. *)
Definition with_spawn (g : Game) (timer : Z) (new : list Enemy.t) : Game :=
  mkGame (player g) (enemies g ++ new) (projectiles g) (bombs g) (explosions g)
         timer (running g).

(** ** Bombs *)

(** The bombs that come from a Hard enemy whose timer has run out. *)
Definition fired_at (target : Z * Z) (es : list Enemy.t) (b : Bomb.t) : Prop :=
  exists e, e ∈ es /\ Enemy.kind e = Hard /\ Enemy.shoot_timer e - 1 <= 0 /\
            Bomb.init (Rect.center (Enemy.rect e)) target = Some b.

(** The bomb [b'] flies as a bomb of [old] did: same velocity. *)
Definition same_flight (old : list Bomb.t) (b' : Bomb.t) : Prop :=
  exists b, b ∈ old /\ Bomb.vel b' = Bomb.vel b.

(** The coordinates checked one by one: from 1024 pixels before the origin
    to 2048 pixels after it, a range that covers the 900 x 600 window. *)
Definition coord_range : list Z := map (fun n => Z.of_nat n - 1024) (seq 0 3073).

(** The difference of a coordinate with itself is the float zero. *)
Fixpoint all_cancel (l : list Z) : Prop :=
  match l with
  | [] => True
  | z :: l' => (of_Z z - of_Z z)%float = 0%float /\ all_cancel l'
  end.

(** What [all_cancel] evaluates to on a list of [n] cancelling coordinates. *)
Fixpoint all_zero (n : nat) : Prop :=
  match n with
  | O => True
  | S n' => 0%float = 0%float /\ all_zero n'
  end.

(** ** Combat *)

Definition combat_of (g : Game) : Combat :=
  mkCombat (enemies g) (explosions g) (Player.score (player g)).

(** Every enemy of the group has a positive hp. *)
Definition healthy (es : list Enemy.t) : Prop := Forall (fun e => 0 < Enemy.hp e) es.




(** The game after a hit on the player: one life less, the groups [bs] and
    [es], one more explosion, and the loop stopped when no life is left. *)
Definition lose_life (g : Game) (bs : list Bomb.t) (es : list Enemy.t)
    (boom : Explosion.t) : Game :=
  mkGame (set_lives (player g) (Player.lives (player g) - 1)) es (projectiles g) bs
         (explosions g ++ [boom]) (spawn_timer g)
         (if Player.lives (player g) - 1 <=? 0 then false else running g).

(** A step that takes no life, or exactly one and then stops the loop when
    none is left. *)
Definition life_step (g g' : Game) : Prop :=
  (Player.lives (player g') = Player.lives (player g) /\ running g' = running g) \/
  (Player.lives (player g') = Player.lives (player g) - 1 /\
   running g' = if Player.lives (player g) - 1 <=? 0 then false else running g).

(** What the steps before the combat resolution leave alone. *)
Record calm (g g' : Game) : Prop := mkCalm {
  calm_lives : Player.lives (player g') = Player.lives (player g);
  calm_score : Player.score (player g') = Player.score (player g);
  calm_running : running g' = true -> running g = true }.

(** * Concrete inputs *)

(** [math.sin] at the three arguments [Player.fire] passes, as the C library
    computes them in binary64 ([sin(0.15) = 0x1.320c9e9dfed22p-3], odd, and
    [sin(0) = 0]); no other argument occurs in the program, and none is
    tabulated. *)
Definition libm_sin (a : float) : float :=
  if (a =? 0.15)%float then 0x1.320c9e9dfed22p-3%float
  else if (a =? -0.15)%float then (-0x1.320c9e9dfed22p-3)%float
  else if (a =? 0)%float then 0%float
  else nan.

(** A machine without the optional projectile images. *)
Definition desktop : Platform := mkPlatform libm_sin (fun _ => false).

Definition no_keys : Keys := mkKeys false false false false false false false false.

Definition up_keys : Keys := mkKeys false false false false true false false false.

(** A frame without events and with no key held. *)
Definition quiet : Input := mkInput no_keys [].

(** The game a run ends in. *)
Definition final (r : Result Game) : Game :=
  match r with Done g _ => g | _ => initial end.

Definition water_player (s : Player.t) : Player.t := set_element s Water.

(** An Air shot 5 pixels below the top edge, moving up. *)
Definition low_shot : Projectile.t :=
  Projectile.init false (450, 5) (Vector2.of_ints (0, - 8)) Air.

Definition sample_enemy (k : Kind) (c : Z * Z) (h : Z) : Enemy.t :=
  Enemy.mk k (Vector2.of_ints c) (Rect.centered 40 28 c) h (Enemy.kind_speed k)
           (Enemy.kind_color k) (Vector2.mk 0%float 1%float) 40.

Definition sample_bomb (c : Z * Z) : Bomb.t :=
  Bomb.mk (Vector2.of_ints c) (Vector2.mk 0%float 4.5%float) (Rect.centered 10 10 c).

(** A Hard enemy above the player, its shoot timer at 1. *)
Definition gunner : Enemy.t :=
  Enemy.set_shoot_timer (sample_enemy Hard (450, 45) 3) 1.

(** Two bombs over the player, behind one that is far away. *)
Definition under_fire : Game :=
  mkGame (Player.init (450, 520)) [] []
         [sample_bomb (20, 20); sample_bomb (450, 500); sample_bomb (452, 503)] [] 7 true.

(** The duel: one Beginner enemy is spawned straight above the player, who
    fires an Air shot in the first frame and stands still; after 29 frames
    the shot is about to meet the enemy, and the 30th frame removes both. *)
Definition duel_inputs : list Input :=
  mkInput no_keys [KEYDOWN K_SPACE] :: repeat quiet 28.

Definition duel_tape : Tape :=
  [DInt 42; DInt 450; DUnit 0%float; DUnit 0.5%float; DInt 40].

Definition before_kill : Game := final (run desktop duel_inputs initial duel_tape).

Definition after_kill : Game := final (tick desktop quiet before_kill []).

(** The ambush: the player climbs to the top of the field (103 frames with
    the up key held) and waits, while an enemy is spawned every 42 frames
    with no sway: two Beginner enemies and then a Hard one, with a shoot
    timer of 73, in the player's column, and a Beginner one at the left
    edge.  The two Beginner enemies reach the player in frames 96 and 109;
    the Hard one drops its bomb in frame 157. *)
Definition ambush_inputs : list Input :=
  repeat (mkInput up_keys []) 103 ++ repeat quiet 55.

Definition ambush_tape : Tape :=
  [DInt 42; DInt 450; DUnit 0%float; DUnit 0.5%float; DInt 40;
   DInt 42; DInt 450; DUnit 0%float; DUnit 0.5%float; DInt 40;
   DInt 42; DInt 450; DUnit 0.95%float; DUnit 0.5%float; DInt 73;
   DInt 42; DInt 40; DUnit 0%float; DUnit 0.5%float; DInt 40;
   DInt 60].

(** The game after the 158 frames of the ambush, and after one more. *)
Definition last_life : Game := final (run desktop ambush_inputs initial ambush_tape).

Definition overkill : Game := final (tick desktop quiet last_life []).

(** * Notions of the further properties *)

(** ** Shapes kept by the loop *)

(** The player as [Player.__init__] and [Player.update] keep it: the scaled
    160 x 102 sprite inside the field, the speed 4, the cooldown within its
    reset value, a score made of kills. *)
Record player_ok (p : Player.t) : Prop := mkPlayerOk {
  ok_speed : Player.speed p = 4;
  ok_width : Rect.width (Player.rect p) = 160;
  ok_height : Rect.height (Player.rect p) = 102;
  ok_x : 10 <= Rect.x (Player.rect p) <= WIDTH - 10 - 160;
  ok_y : 60 <= Rect.y (Player.rect p) <= HEIGHT - 10 - 102;
  ok_cooldown : 0 <= Player.fire_cooldown p <= 14;
  ok_score : 0 <= Player.score p /\ Player.score p mod 5 = 0 }.

(** An enemy as its constructor makes it, up to the hits it took. *)
Record enemy_ok (e : Enemy.t) : Prop := mkEnemyOk {
  ok_hp : 1 <= Enemy.hp e <= Enemy.kind_hp (Enemy.kind e);
  ok_kind_speed : Enemy.speed e = Enemy.kind_speed (Enemy.kind e);
  ok_kind_color : Enemy.color e = Enemy.kind_color (Enemy.kind e);
  ok_box : Rect.width (Enemy.rect e) = 40 /\ Rect.height (Enemy.rect e) = 28 }.

(** A projectile as its constructor makes it: radius and colour by element,
    a square box of side twice the radius. *)
Record projectile_ok (s : Projectile.t) : Prop := mkProjectileOk {
  ok_radius : Projectile.radius s = Projectile.fallback_radius (Projectile.element s);
  ok_color : Projectile.color s = Projectile.element_color (Projectile.element s);
  ok_side : Rect.width (Projectile.rect s) = Projectile.radius s * 2
            /\ Rect.height (Projectile.rect s) = Projectile.radius s * 2 }.

Definition explosion_ok (x : Explosion.t) : Prop := 1 <= Explosion.lifetime x <= 18.

Record tidy (g : Game) : Prop := mkTidy {
  tidy_player : player_ok (player g);
  tidy_enemies : Forall enemy_ok (enemies g);
  tidy_projectiles : Forall projectile_ok (projectiles g);
  tidy_explosions : Forall explosion_ok (explosions g);
  tidy_timer : 0 <= spawn_timer g <= 42 }.

(** ** Explosions over the frames *)

(** [n] successive [explosions.update()] calls. *)
Fixpoint age (n : nat) (xs : list Explosion.t) : option (list Explosion.t) :=
  match n with
  | O => Some xs
  | S n' =>
      match update_group Explosion.update xs with
      | Some xs' => age n' xs'
      | None => None
      end
  end.

(** The arguments that [Explosion.update] passes to [pygame.draw.circle] at
    lifetime [t]: the alpha [int(255 * (t / 18.0))] and the radius
    [int(self.radius * (1 - (18 - t) / 22))]. *)
Definition explosion_alpha (t : Z) : option Z :=
  py_int (of_Z 255 * (of_Z t / 18.0))%float.

Definition explosion_circle (radius t : Z) : option Z :=
  py_int (of_Z radius * (of_Z 1 - of_Z (18 - t) / of_Z 22))%float.

(** ** The HUD *)

(** [range(n)]. *)
Definition range (n : Z) : list Z := map Z.of_nat (seq 0 (Z.to_nat n)).

(** The triangles that [main] draws on the 900 x 56 HUD surface, one per
    life: [for i in range(player.lives)]. *)
Definition hud_life_icons (lives : Z) : list (list (Z * Z)) :=
  let lives_x := WIDTH - 180 in
  map (fun i => [(lives_x + 58 + i * 30, 26); (lives_x + 68 + i * 30, 6);
                 (lives_x + 78 + i * 30, 26)])
      (range lives).

(** A point of the HUD surface. *)
Definition on_hud (pt : Z * Z) : Prop := 0 <= fst pt < WIDTH /\ 0 <= snd pt < 56.

(** ** The projectile loop in the game *)

(** The game with another projectile group. *)
Definition with_projectiles (g : Game) (ps : list Projectile.t) : Game :=
  mkGame (player g) (enemies g) ps (bombs g) (explosions g) (spawn_timer g) (running g).

(** The game once the first projectile of the group has hit: the projectile
    has left the group, the enemies are [es], the explosion [boom] is added
    and the player's score is [score]. *)
Definition after_hit (g : Game) (rest : list Projectile.t) (es : list Enemy.t)
    (boom : Explosion.t) (score : Z) : Game :=
  mkGame (set_score (player g) score) es rest (bombs g) (explosions g ++ [boom])
         (spawn_timer g) (running g).

(** The explosion of a projectile that hits. *)
Definition hit_explosion (proj : Projectile.t) : Explosion.t :=
  Explosion.init (Rect.center (Projectile.rect proj)) (Projectile.radius proj * 2)
                 (Projectile.color proj).

(** An Air shot over a Beginner and a Hard enemy, behind a Mid one far away. *)
Definition skirmish : Game :=
  mkGame (Player.init (450, 520))
         [sample_enemy Mid (100, 100) 2; sample_enemy Beginner (450, 10) 1;
          sample_enemy Hard (455, 12) 3]
         [low_shot] [] [] 7 true.

(** ** Quitting *)

(** The result of a tick with the loop stopped at its end. *)
Definition stopped (r : Result Game) : Result Game :=
  match r with
  | Done g t => Done (set_running g false) t
  | Raised e => Raised e
  | BadTape => BadTape
  end.

(** ** Further concrete inputs *)

Definition right_and_left : Keys := mkKeys true false true false false false false false.

Definition up_and_down : Keys := mkKeys false false false false true false true false.

(** A bomb above the top edge, over the middle of the screen. *)
Definition high_bomb : Bomb.t :=
  Bomb.mk (Vector2.of_ints (450, - 40)) (Vector2.mk 0%float (-4.5)%float)
          (Rect.centered 10 10 (450, - 40)).

(** A Hard enemy of full hp over the player, behind a Mid one far away. *)
Definition rammed : Game :=
  mkGame (Player.init (450, 520)) [sample_enemy Mid (20, 20) 2; sample_enemy Hard (450, 500) 3]
         [] [] [] 7 true.

(** * Properties *)

(** ** The monad *)

Lemma bind_Done {A B} (m : M A) (k : A -> M B) t b t' :
  bind m k t = Done b t' ->
  exists a t1, m t = Done a t1 /\ k a t1 = Done b t'.
Proof.
  unfold bind. destruct (m t) as [a t1| |]; try discriminate.
  intros H. exists a, t1. split; [reflexivity|assumption].
Qed.

Lemma ret_Done {A} (a b : A) t t' : ret a t = Done b t' -> a = b /\ t = t'.
Proof. unfold ret. intros H. injection H as -> ->. split; reflexivity. Qed.

Lemma lift_Done {A} e (o : option A) t b t' :
  lift e o t = Done b t' -> o = Some b /\ t = t'.
Proof.
  destruct o as [a|]; simpl; [|discriminate].
  intros H. apply ret_Done in H as [-> ->]. split; reflexivity.
Qed.

Lemma randint_Done a b t z t' :
  random.randint a b t = Done z t' -> t = DInt z :: t' /\ a <= z <= b.
Proof.
  unfold random.randint. destruct t as [|[z0|u] t0]; try discriminate.
  destruct ((a <=? z0) && (z0 <=? b)) eqn:E; [|discriminate].
  intros H. injection H as -> ->. apply andb_true_iff in E as [E1 E2].
  split; [reflexivity|lia].
Qed.

Lemma randint_ok a b z t : a <= z <= b -> random.randint a b (DInt z :: t) = Done z t.
Proof.
  intros H. unfold random.randint.
  replace ((a <=? z) && (z <=? b)) with true; [reflexivity|].
  symmetry. apply andb_true_iff. split; lia.
Qed.

(** ** Rectangles *)

Lemma colliderect_sym a b : Rect.colliderect a b = Rect.colliderect b a.
Proof.
  unfold Rect.colliderect.
  destruct (Rect.width a =? 0), (Rect.height a =? 0), (Rect.width b =? 0),
    (Rect.height b =? 0); simpl; try reflexivity.
  destruct (Z.min (Rect.x a) (Rect.x a + Rect.width a) <? _),
    (Z.min (Rect.y a) (Rect.y a + Rect.height a) <? _),
    (Z.min (Rect.x b) (Rect.x b + Rect.width b) <? _),
    (Z.min (Rect.y b) (Rect.y b + Rect.height b) <? _); reflexivity.
Qed.

(** ** Projectile construction *)

(** Both branches of the constructor build the same projectile. *)
Lemma projectile_init_branches p v el :
  Projectile.init true p v el = Projectile.init false p v el.
Proof. destruct el; reflexivity. Qed.

(** ** Player.fire and the cooldown *)

Lemma update_cooldown k s :
  Player.fire_cooldown (Player.update k s) =
  if 0 <? Player.fire_cooldown s then Player.fire_cooldown s - 1
  else Player.fire_cooldown s.
Proof. reflexivity. Qed.

Lemma update_element k s : Player.element (Player.update k s) = Player.element s.
Proof. reflexivity. Qed.

Lemma updates_cooldown ks : forall s,
  0 <= Player.fire_cooldown s ->
  Player.fire_cooldown (updates ks s) =
  Z.max 0 (Player.fire_cooldown s - Z.of_nat (length ks)).
Proof.
  induction ks as [|k ks IH]; intros s Hs.
  - simpl. lia.
  - change (updates (k :: ks) s) with (updates ks (Player.update k s)).
    rewrite IH; rewrite update_cooldown;
      destruct (0 <? Player.fire_cooldown s) eqn:E;
      simpl length; lia.
Qed.

Lemma fire_blocked pf s :
  0 < Player.fire_cooldown s -> Player.fire pf s = (s, []).
Proof.
  intros H. unfold Player.fire.
  destruct (0 <? Player.fire_cooldown s) eqn:E; [reflexivity|lia].
Qed.

Lemma fire_ready pf s :
  Player.fire_cooldown s <= 0 ->
  Player.fire_cooldown (fst (Player.fire pf s)) = 14 /\
  snd (Player.fire pf s) <> [].
Proof.
  intros H. unfold Player.fire.
  destruct (0 <? Player.fire_cooldown s) eqn:E; [lia|].
  destruct (Rect.center (Player.rect s)) as [cx cy].
  split; [reflexivity|].
  simpl. destruct (Player.element s); discriminate.
Qed.

(** C2: [fire()] returns no shot while the cooldown is positive; otherwise it
    sets the cooldown to 14 and returns a non-empty burst.  After a burst, a
    second call made fewer than 14 updates later returns no shot (the
    cooldown, one less per update, is still positive); after 14 updates
    the cooldown is 0 and the call fires again. *)
Theorem fire_rate_gating (pf : Platform) (s : Player.t) :
  (0 < Player.fire_cooldown s -> Player.fire pf s = (s, [])) /\
  (Player.fire_cooldown s <= 0 ->
   Player.fire_cooldown (fst (Player.fire pf s)) = 14 /\
   snd (Player.fire pf s) <> [] /\
   forall ks : list Keys,
     let s' := updates ks (fst (Player.fire pf s)) in
     (Z.of_nat (length ks) < 14 ->
      Player.fire_cooldown s' = 14 - Z.of_nat (length ks) /\
      Player.fire pf s' = (s', [])) /\
     (Z.of_nat (length ks) = 14 ->
      Player.fire_cooldown s' = 0 /\
      snd (Player.fire pf s') <> [] /\
      Player.fire_cooldown (fst (Player.fire pf s')) = 14)).
Proof.
  split; [apply fire_blocked|].
  intros Hready. destruct (fire_ready pf s Hready) as [H14 Hne].
  split; [exact H14|]. split; [exact Hne|].
  intros ks s'.
  assert (Hc : Player.fire_cooldown s' = Z.max 0 (14 - Z.of_nat (length ks))).
  { unfold s'. rewrite updates_cooldown; rewrite H14; lia. }
  split; intros Hlen.
  - split; [lia|]. apply fire_blocked. lia.
  - assert (H0 : Player.fire_cooldown s' <= 0) by lia.
    destruct (fire_ready pf s' H0) as [H14' Hne'].
    split; [lia|]. split; assumption.
Qed.

Lemma fire_rate_gating_witness :
  Player.fire desktop (Player.init (450, 520))
  <> (Player.init (450, 520), []) /\
  Player.fire desktop (updates (repeat no_keys 13)
                         (fst (Player.fire desktop (Player.init (450, 520)))))
  = (updates (repeat no_keys 13)
       (fst (Player.fire desktop (Player.init (450, 520)))), []) /\
  snd (Player.fire desktop (updates (repeat no_keys 14)
                              (fst (Player.fire desktop (Player.init (450, 520))))))
  <> [].
Proof.
  pose proof (fire_rate_gating desktop (Player.init (450, 520))) as [_ H].
  destruct H as (_ & Hne & Hks); [simpl; lia|].
  split.
  - intros E. apply Hne. rewrite E. reflexivity.
  - split.
    + destruct (Hks (repeat no_keys 13)) as [[_ Hb] _]; [simpl; lia|exact Hb].
    + destruct (Hks (repeat no_keys 14)) as [_ (_ & Hf & _)];
        [reflexivity|exact Hf].
Defined.

(** ** The water spread *)

(** C3, as stated, fails: with the C library's sine the two outer shots of
    the water spread are faster than the centre shot (their horizontal
    component is added to the common vertical one). *)
Lemma water_spread_speeds_differ :
  exists s1 s2 s3,
    snd (Player.fire desktop (water_player (Player.init (450, 520)))) = [s1; s2; s3] /\
    Vector2.length (Projectile.vel s2) = 6%float /\
    (Vector2.length (Projectile.vel s2) <? Vector2.length (Projectile.vel s1))%float = true /\
    (Vector2.length (Projectile.vel s1) =? Vector2.length (Projectile.vel s2))%float = false /\
    (Vector2.length (Projectile.vel s3) =? Vector2.length (Projectile.vel s2))%float = false.
Proof.
  eexists _, _, _. split; [reflexivity|].
  vm_compute. repeat split; reflexivity.
Qed.

(** C3 (amended): with the cooldown at 0 and the element Water, [fire()]
    returns exactly three projectiles, of velocities [(sin(-0.15)*6, -6)],
    [(sin(0)*6, -6)] (that is [(0, -6)], as the sine of 0 is 0) and
    [(sin(0.15)*6, -6)]: the three share the vertical component -6. *)
Theorem water_spread (pf : Platform) (s : Player.t) :
  Player.fire_cooldown s <= 0 ->
  Player.element s = Water ->
  math_sin pf 0%float = 0%float ->
  map Projectile.vel (snd (Player.fire pf s)) =
    [Vector2.mk (math_sin pf (-0.15)%float * 6)%float (-6)%float;
     Vector2.mk 0%float (-6)%float;
     Vector2.mk (math_sin pf 0.15%float * 6)%float (-6)%float] /\
  length (snd (Player.fire pf s)) = 3%nat /\
  Forall (fun shot => Vector2.y (Projectile.vel shot) = (-6)%float
                      /\ Projectile.element shot = Water)
         (snd (Player.fire pf s)).
Proof.
  intros Hc Hel Hsin. unfold Player.fire.
  destruct (0 <? Player.fire_cooldown s) eqn:E; [lia|].
  destruct (Rect.center (Player.rect s)) as [cx cy]. rewrite Hel.
  assert (Hmid : (math_sin pf (of_Z 0) * of_Z 6)%float = 0%float).
  { change (of_Z 0) with 0%float. rewrite Hsin. vm_compute. reflexivity. }
  assert (H6 : of_Z 6 = 6%float) by (vm_compute; reflexivity).
  assert (Hm6 : of_Z (- 6) = (-6)%float) by (vm_compute; reflexivity).
  unfold Player.spread. cbn [snd map length].
  split.
  - unfold Projectile.init.
    destruct (sprite_exists pf Water); cbn [Projectile.vel];
      rewrite Hmid, H6, Hm6; reflexivity.
  - split; [reflexivity|].
    repeat constructor; unfold Projectile.init;
      destruct (sprite_exists pf Water); cbn; auto.
Qed.

Lemma water_spread_witness :
  length (snd (Player.fire desktop (water_player (Player.init (450, 520))))) = 3%nat.
Proof.
  refine (proj1 (proj2 (water_spread desktop (water_player (Player.init (450, 520))) _ _ _))).
  - simpl. lia.
  - reflexivity.
  - vm_compute. reflexivity.
Defined.

(** ** Projectile.update and the screen *)

(** C9, as stated, fails: after its update the shot is at [y = -3 < 0], yet
    it is not removed, as the lower part of its 32 x 32 box is still on
    the screen. *)
Lemma projectile_above_top_survives :
  exists s',
    Projectile.update low_shot = Some (s', true) /\
    Projectile.pos s' = Vector2.mk 450%float (-3)%float /\
    (Vector2.y (Projectile.pos s') <? 0)%float = true /\
    Rect.bottom (Projectile.rect s') = 13.
Proof.
  eexists. split; [vm_compute; reflexivity|].
  vm_compute. repeat split; reflexivity.
Qed.

(** C9 (amended): the update moves the projectile by its velocity, centres
    its box at the truncated position, and removes it exactly when the box
    is entirely off the screen: bottom < 0, top > HEIGHT, left > WIDTH or
    right < 0.  For a box of side twice the radius [r], as the constructor
    makes it, that is when the centre is more than [r] beyond an edge. *)
Theorem projectile_cleanup (s s' : Projectile.t) (alive : bool) :
  Projectile.update s = Some (s', alive) ->
  exists cx cy,
    Projectile.pos s' = Vector2.add (Projectile.pos s) (Projectile.vel s) /\
    py_int (Vector2.x (Projectile.pos s')) = Some cx /\
    py_int (Vector2.y (Projectile.pos s')) = Some cy /\
    Projectile.rect s' = Rect.set_center (Projectile.rect s) (cx, cy) /\
    (alive = false <->
     Rect.bottom (Projectile.rect s') < 0 \/ HEIGHT < Rect.top (Projectile.rect s') \/
     WIDTH < Rect.left (Projectile.rect s') \/ Rect.right (Projectile.rect s') < 0) /\
    (Rect.width (Projectile.rect s) = Projectile.radius s * 2 ->
     Rect.height (Projectile.rect s) = Projectile.radius s * 2 ->
     (alive = false <->
      cy + Projectile.radius s < 0 \/ HEIGHT < cy - Projectile.radius s \/
      WIDTH < cx - Projectile.radius s \/ cx + Projectile.radius s < 0)).
Proof.
  unfold Projectile.update. intros H.
  destruct (py_int (Vector2.x _)) as [cx|] eqn:Ex; [|discriminate].
  destruct (py_int (Vector2.y _)) as [cy|] eqn:Ey; [|discriminate].
  injection H as <- <-. exists cx, cy. cbn [Projectile.pos Projectile.rect].
  repeat (split; [first [reflexivity | assumption]|]).
  assert (Hoff : forall r,
    negb (Projectile.off_screen r) = false <->
    Rect.bottom r < 0 \/ HEIGHT < Rect.top r \/ WIDTH < Rect.left r \/ Rect.right r < 0).
  { intros r. unfold Projectile.off_screen. rewrite negb_false_iff.
    rewrite !orb_true_iff, !Z.ltb_lt. tauto. }
  split; [apply Hoff|].
  intros Hw Hh. rewrite Hoff.
  unfold Rect.bottom, Rect.top, Rect.left, Rect.right, Rect.set_center, Rect.centered.
  cbn [Rect.x Rect.y Rect.width Rect.height fst snd]. rewrite Hw, Hh.
  rewrite Z.div_mul by lia. lia.
Qed.

Lemma projectile_cleanup_witness :
  exists s' cx cy,
    Projectile.update low_shot = Some (s', true) /\
    py_int (Vector2.y (Projectile.pos s')) = Some cy /\
    Projectile.rect s' = Rect.set_center (Projectile.rect low_shot) (cx, cy).
Proof.
  destruct (projectile_cleanup low_shot
              (Projectile.mk (Vector2.mk 450%float (-3)%float) (Vector2.of_ints (0, - 8))
                 Air 16 NEON_PINK (Rect.mk 434 (- 19) 32 32)) true)
    as (cx & cy & _ & _ & Hy & Hr & _); [vm_compute; reflexivity|].
  eexists _, cx, cy. split; [vm_compute; reflexivity|]. split; assumption.
Defined.

(** ** Bomb construction *)

Lemma all_cancel_In l z : all_cancel l -> In z l -> (of_Z z - of_Z z)%float = 0%float.
Proof.
  induction l as [|a l IH]; simpl; [tauto|].
  intros [Ha Hl] [->|Hin]; auto.
Qed.

Lemma all_zero_holds n : all_zero n.
Proof. induction n; simpl; auto. Qed.

Lemma all_cancel_range : all_cancel coord_range.
Proof. vm_cast_no_check (all_zero_holds 3073). Qed.

Lemma coord_cancel z : - 1024 <= z <= 2048 -> (of_Z z - of_Z z)%float = 0%float.
Proof.
  intros Hz. apply (all_cancel_In coord_range); [exact all_cancel_range|].
  unfold coord_range. apply in_map_iff. exists (Z.to_nat (z + 1024)).
  split; [lia|]. apply in_seq. lia.
Qed.

(** C10: a bomb whose spawn position is its target cannot be built: the
    difference is the zero vector, [normalize()] raises, and so does the
    constructor (for every position of the window and around it). *)
Theorem bomb_on_target_raises (x y : Z) :
  - 1024 <= x <= 2048 -> - 1024 <= y <= 2048 ->
  Vector2.normalize (Vector2.sub (Vector2.of_ints (x, y)) (Vector2.of_ints (x, y))) = None
  /\ Bomb.init (x, y) (x, y) = None.
Proof.
  intros Hx Hy.
  assert (Hn : Vector2.normalize
                 (Vector2.sub (Vector2.of_ints (x, y)) (Vector2.of_ints (x, y))) = None).
  { unfold Vector2.sub, Vector2.of_ints. cbn [fst snd Vector2.x Vector2.y].
    rewrite (coord_cancel x Hx), (coord_cancel y Hy). vm_compute. reflexivity. }
  split; [exact Hn|].
  unfold Bomb.init. rewrite Hn. reflexivity.
Qed.

Lemma bomb_on_target_raises_witness : Bomb.init (450, 111) (450, 111) = None.
Proof. apply (bomb_on_target_raises 450 111); lia. Defined.

(** ** Collision search *)

Section Collide.
Context {A : Type} (r : Rect.t) (rect_of : A -> Rect.t).

Lemma spritecollideany_first (group : list A) (i : nat) (s : A) :
  group !! i = Some s ->
  Rect.colliderect r (rect_of s) = true ->
  (forall j s', group !! j = Some s' -> (j < i)%nat ->
                Rect.colliderect r (rect_of s') = false) ->
  spritecollideany r rect_of group = Some (i, s).
Proof.
  intros Hi Hc Hbefore. unfold spritecollideany. apply list_find_Some.
  split; [exact Hi|]. split; [exact Hc|].
  intros j y Hj Hlt Hy. rewrite (Hbefore j y Hj Hlt) in Hy. discriminate.
Qed.

Lemma spritecollideany_none (group : list A) :
  Forall (fun s => Rect.colliderect r (rect_of s) = false) group ->
  spritecollideany r rect_of group = None.
Proof.
  intros H. unfold spritecollideany. apply list_find_None.
  eapply Forall_impl; [exact H|]. cbn. intros x Hx Hy. congruence.
Qed.

Lemma spritecollideany_Some (group : list A) (i : nat) (s : A) :
  spritecollideany r rect_of group = Some (i, s) ->
  group !! i = Some s /\ Rect.colliderect r (rect_of s) = true.
Proof.
  unfold spritecollideany. intros H. apply list_find_Some in H. tauto.
Qed.
End Collide.

(** ** Projectile x Enemy *)

Lemma hit_loop_cons proj rest c :
  hit_loop (proj :: rest) c =
  (if snd (hit_one proj c)
   then proj :: fst (hit_loop rest (fst (hit_one proj c)))
   else fst (hit_loop rest (fst (hit_one proj c))),
   snd (hit_loop rest (fst (hit_one proj c)))).
Proof.
  cbn [hit_loop]. destruct (hit_one proj c) as [c1 stays]. cbn [fst snd].
  destruct (hit_loop rest c1) as [kept c2]. reflexivity.
Qed.

Lemma hit_one_explosions proj c :
  length (c_explosions (fst (hit_one proj c))) =
  (length (c_explosions c) + (if snd (hit_one proj c) then 0 else 1))%nat.
Proof.
  unfold hit_one.
  destruct (spritecollideany _ _ _) as [[i hit]|]; [|simpl; lia].
  destruct (Enemy.hp _ <=? 0); simpl; rewrite length_app; simpl; lia.
Qed.

Lemma hit_loop_once projs : forall c,
  fst (hit_loop projs c) `sublist_of` projs /\
  (length (c_explosions (snd (hit_loop projs c))) + length (fst (hit_loop projs c))
   = length (c_explosions c) + length projs)%nat.
Proof.
  induction projs as [|proj rest IH]; intros c.
  - simpl. split; [constructor|lia].
  - rewrite hit_loop_cons. cbn [fst snd].
    destruct (IH (fst (hit_one proj c))) as [Hsub Hlen].
    pose proof (hit_one_explosions proj c) as He.
    destruct (snd (hit_one proj c)); cbn [length]; split.
    + constructor. exact Hsub.
    + lia.
    + constructor. exact Hsub.
    + lia.
Qed.

(** One iteration of the projectile loop and the loop itself, on the state
    they change. *)
Lemma hit_one_spec (proj : Projectile.t) (c : Combat) :
  (Forall (fun e => Rect.colliderect (Projectile.rect proj) (Enemy.rect e) = false)
          (c_enemies c) ->
   hit_one proj c = (c, true)) /\
  (forall (i : nat) (hit : Enemy.t),
     c_enemies c !! i = Some hit ->
     Rect.colliderect (Projectile.rect proj) (Enemy.rect hit) = true ->
     (forall j e, c_enemies c !! j = Some e -> (j < i)%nat ->
                  Rect.colliderect (Projectile.rect proj) (Enemy.rect e) = false) ->
     let boom := Explosion.init (Rect.center (Projectile.rect proj))
                   (Projectile.radius proj * 2) (Projectile.color proj) in
     (Enemy.hp hit - 1 <= 0 ->
      hit_one proj c =
      (mkCombat (delete i (c_enemies c)) (c_explosions c ++ [boom]) (c_score c + 5),
       false)) /\
     (0 < Enemy.hp hit - 1 ->
      hit_one proj c =
      (mkCombat (<[i := Enemy.set_hp hit (Enemy.hp hit - 1)]> (c_enemies c))
                (c_explosions c ++ [boom]) (c_score c),
       false))) /\
  (forall rest,
     hit_loop (proj :: rest) c =
     (if snd (hit_one proj c)
      then proj :: fst (hit_loop rest (fst (hit_one proj c)))
      else fst (hit_loop rest (fst (hit_one proj c))),
      snd (hit_loop rest (fst (hit_one proj c)))) /\
     fst (hit_loop (proj :: rest) c) `sublist_of` (proj :: rest) /\
     (length (c_explosions (snd (hit_loop (proj :: rest) c)))
      + length (fst (hit_loop (proj :: rest) c))
      = length (c_explosions c) + length (proj :: rest))%nat).
Proof.
  split; [|split].
  - intros Hnone. unfold hit_one.
    rewrite (spritecollideany_none _ _ _ Hnone). reflexivity.
  - intros i hit Hi Hc Hfirst boom. unfold hit_one.
    rewrite (spritecollideany_first _ _ _ i hit Hi Hc Hfirst).
    cbn [Enemy.hp Enemy.set_hp].
    split; intros Hhp.
    + destruct (Enemy.hp hit - 1 <=? 0) eqn:E; [reflexivity|lia].
    + destruct (Enemy.hp hit - 1 <=? 0) eqn:E; [lia|reflexivity].
  - intros rest. split; [apply hit_loop_cons|]. apply hit_loop_once.
Qed.

(** ** Bomb x Player *)

(** C5: when no bomb's box meets the player's box the bomb step changes
    nothing.  Otherwise exactly the first such bomb (in group order) is
    resolved: it alone leaves the group, one explosion (radius 36, yellow) is
    added at its centre and the player loses exactly one life, whatever
    other bombs overlap the player at the same time. *)
Theorem bomb_hits_player (g : Game) :
  (Forall (fun b => Rect.colliderect (Bomb.rect b) (Player.rect (player g)) = false)
          (bombs g) ->
   bomb_phase g = g) /\
  (forall (i : nat) (b : Bomb.t),
     bombs g !! i = Some b ->
     Rect.colliderect (Bomb.rect b) (Player.rect (player g)) = true ->
     (forall j b', bombs g !! j = Some b' -> (j < i)%nat ->
                   Rect.colliderect (Bomb.rect b') (Player.rect (player g)) = false) ->
     bomb_phase g =
       lose_life g (delete i (bombs g)) (enemies g)
                 (Explosion.init (Rect.center (Bomb.rect b)) 36 NEON_YELLOW) /\
     Player.lives (player (bomb_phase g)) = Player.lives (player g) - 1 /\
     bombs (bomb_phase g) = delete i (bombs g) /\
     S (length (bombs (bomb_phase g))) = length (bombs g) /\
     length (explosions (bomb_phase g)) = S (length (explosions g))).
Proof.
  split.
  - intros Hnone. unfold bomb_phase.
    rewrite spritecollideany_none; [reflexivity|].
    eapply Forall_impl; [exact Hnone|]. cbn. intros b Hb.
    rewrite colliderect_sym. exact Hb.
  - intros i b Hi Hc Hfirst.
    assert (E : bomb_phase g =
                lose_life g (delete i (bombs g)) (enemies g)
                  (Explosion.init (Rect.center (Bomb.rect b)) 36 NEON_YELLOW)).
    { unfold bomb_phase.
      rewrite (spritecollideany_first _ Bomb.rect _ i b Hi).
      - assert (F : list_find
                      (fun b0 => Rect.colliderect (Bomb.rect b0) (Player.rect (player g)) = true)
                      (bombs g) = Some (i, b)).
        { apply list_find_Some. split; [exact Hi|]. split; [exact Hc|].
          intros j y Hj Hlt Hy. rewrite (Hfirst j y Hj Hlt) in Hy. discriminate. }
        rewrite F. reflexivity.
      - rewrite colliderect_sym. exact Hc.
      - intros j s' Hj Hlt. rewrite colliderect_sym. eauto. }
    rewrite E. unfold lose_life. cbn [player bombs explosions set_lives Player.lives].
    split; [reflexivity|]. split; [reflexivity|]. split; [reflexivity|].
    split.
    + pose proof (lookup_lt_Some _ _ _ Hi) as Hlt.
      rewrite length_delete by eauto. lia.
    + rewrite length_app. simpl. lia.
Qed.

Lemma bomb_hits_player_witness :
  Player.lives (player (bomb_phase under_fire)) = 2 /\
  bombs (bomb_phase under_fire) = [sample_bomb (20, 20); sample_bomb (452, 503)].
Proof.
  pose proof (bomb_hits_player under_fire) as [_ H].
  destruct (H 1%nat (sample_bomb (450, 500))) as (_ & Hl & Hb & _).
  - reflexivity.
  - vm_compute. reflexivity.
  - intros j b' Hj Hlt. destruct j as [|j]; [|lia].
    injection Hj as <-. vm_compute. reflexivity.
  - split; [exact Hl|exact Hb].
Defined.

(** ** The phases of a tick *)

Lemma mapM_Done {A B} (f : A -> M B) l : forall t rs t',
  mapM_ f l t = Done rs t' ->
  Forall2 (fun a r => exists t1 t2, f a t1 = Done r t2) l rs.
Proof.
  induction l as [|a l IH]; intros t rs t' H.
  - apply ret_Done in H as [<- _]. constructor.
  - cbn [mapM_] in H.
    apply bind_Done in H as (b & t1 & Hb & H).
    apply bind_Done in H as (bs & t2 & Hbs & H).
    apply ret_Done in H as [<- _].
    constructor; [eauto|]. eapply IH; eauto.
Qed.

Lemma update_group_Some {A} (upd : A -> Updated A) l : forall l',
  update_group upd l = Some l' ->
  Forall (fun a' => exists a alive, a ∈ l /\ upd a = Some (a', alive)) l'.
Proof.
  induction l as [|a l IH]; intros l' H; simpl in H.
  - injection H as <-. constructor.
  - destruct (upd a) as [[a' alive]|] eqn:Ea; [|discriminate].
    destruct (update_group upd l) as [r|]; [|discriminate].
    injection H as <-.
    assert (Hr : Forall (fun a' => exists a0 alive0,
                           a0 ∈ a :: l /\ upd a0 = Some (a', alive0)) r).
    { eapply Forall_impl; [apply IH; reflexivity|]. cbn.
      intros x (a0 & al & Hin & Hu). exists a0, al. split; [right|]; assumption. }
    destruct alive; [|exact Hr].
    constructor; [|exact Hr]. exists a, true. split; [left|assumption].
Qed.

Lemma tick_phases pf inp g t g' t' :
  tick pf inp g t = Done g' t' ->
  exists g2 g3 g4 t1,
    spawn_phase (fold_left (handle_event pf) (events inp) g) t = Done g2 t1 /\
    update_phase (keys inp) g2 = Some g3 /\
    shoot_phase g3 t1 = Done g4 t' /\
    g' = collide_phase (bomb_phase (hit_phase g4)).
Proof.
  unfold tick. intros H.
  apply bind_Done in H as (g2 & t1 & H2 & H).
  apply bind_Done in H as (g3 & t2 & H3 & H).
  apply lift_Done in H3 as [H3 <-].
  apply bind_Done in H as (g4 & t3 & H4 & H).
  apply ret_Done in H as [<- <-].
  exists g2, g3, g4, t1. auto.
Qed.

Lemma calm_refl g : calm g g.
Proof. split; auto. Qed.

Lemma calm_trans g1 g2 g3 : calm g1 g2 -> calm g2 g3 -> calm g1 g3.
Proof.
  intros [L1 S1 R1] [L2 S2 R2]. split; [congruence|congruence|auto].
Qed.

Lemma fire_vitals pf s :
  Player.lives (fst (Player.fire pf s)) = Player.lives s /\
  Player.score (fst (Player.fire pf s)) = Player.score s.
Proof.
  unfold Player.fire. destruct (0 <? Player.fire_cooldown s); [auto|].
  destruct (Rect.center (Player.rect s)). auto.
Qed.

Lemma handle_event_calm pf g ev : calm g (handle_event pf g ev).
Proof.
  destruct ev as [|k|]; [| destruct k |]; cbn [handle_event];
    try (split; cbn; auto; discriminate).
  pose proof (fire_vitals pf (player g)) as [Hl Hs].
  destruct (Player.fire pf (player g)) as [p' shots].
  split; cbn in *; auto.
Qed.

Lemma handle_event_groups pf g ev :
  enemies (handle_event pf g ev) = enemies g /\
  bombs (handle_event pf g ev) = bombs g.
Proof.
  destruct ev as [|k|]; [| destruct k |]; cbn [handle_event]; auto.
  destruct (Player.fire pf (player g)) as [p' shots]. auto.
Qed.

Lemma handle_events_calm pf evs : forall g,
  calm g (fold_left (handle_event pf) evs g) /\
  enemies (fold_left (handle_event pf) evs g) = enemies g /\
  bombs (fold_left (handle_event pf) evs g) = bombs g.
Proof.
  induction evs as [|ev evs IH]; intros g; simpl.
  - split; [apply calm_refl|auto].
  - destruct (IH (handle_event pf g ev)) as (Hc & He & Hb).
    destruct (handle_event_groups pf g ev) as [He' Hb'].
    split; [eapply calm_trans; [apply handle_event_calm|exact Hc]|].
    split; congruence.
Qed.

(** ** The spawner *)

Lemma random_Done t u t' :
  random.random t = Done u t' -> t = DUnit u :: t' /\ unit_draw u.
Proof.
  unfold random.random. destruct t as [|[z|u0] t0]; try discriminate.
  destruct ((0 <=? u0)%float && (u0 <? 1)%float) eqn:E; [|discriminate].
  intros H. injection H as -> ->. apply andb_true_iff in E.
  split; [reflexivity|exact E].
Qed.

Lemma random_ok u t : unit_draw u -> random.random (DUnit u :: t) = Done u t.
Proof. intros [H0 H1]. unfold random.random. rewrite H0, H1. reflexivity. Qed.

Lemma bisect3 (a b c x : float) :
  random.bisect 3 [a; b; c] x 0 2 =
  if (x <? b)%float then if (x <? a)%float then 0%nat else 1%nat else 2%nat.
Proof.
  simpl. destruct (x <? b)%float; [|reflexivity].
  destruct (x <? a)%float; reflexivity.
Qed.

Lemma choices_kind t :
  random.choices spawn_kinds spawn_weights t =
  (do u <- random.random; ret (kind_at (u * spawn_total)%float)) t.
Proof.
  unfold random.choices.
  change (random.accumulate spawn_weights)
    with [0.6%float; (0.6 + 0.3)%float; (0.6 + 0.3 + 0.1)%float].
  cbv zeta.
  change (negb (_ =? _)%nat) with false. cbv iota.
  change (last [0.6%float; (0.6 + 0.3)%float; (0.6 + 0.3 + 0.1)%float])
    with (Some (0.6 + 0.3 + 0.1)%float).
  cbv iota beta.
  change ((0.6 + 0.3 + 0.1 + 0 <=? 0)%float) with false. cbv iota.
  change (negb (is_finite (0.6 + 0.3 + 0.1 + 0)%float)) with false. cbv iota.
  unfold bind.
  destruct (random.random t) as [u t1| |]; try reflexivity.
  change (length [0.6%float; (0.6 + 0.3)%float; (0.6 + 0.3 + 0.1)%float]) with 3%nat.
  change (length spawn_kinds - 1)%nat with 2%nat.
  rewrite bisect3.
  change (u * (0.6 + 0.3 + 0.1 + 0))%float with (u * spawn_total)%float.
  unfold kind_at.
  destruct (u * spawn_total <? 0.6 + 0.3)%float; [|reflexivity].
  destruct (u * spawn_total <? 0.6)%float; reflexivity.
Qed.

Lemma enemy_init_Done p k t e t' :
  Enemy.init p k t = Done e t' ->
  exists v dir timer,
    t = DUnit v :: DInt timer :: t' /\ unit_draw v /\ 40 <= timer <= 120 /\
    Vector2.normalize (sway v) = Some dir /\
    e = Enemy.mk k (Vector2.of_ints p) (Rect.centered 40 28 p) (Enemy.kind_hp k)
                 (Enemy.kind_speed k) (Enemy.kind_color k) dir timer.
Proof.
  unfold Enemy.init, random.uniform. intros H.
  apply bind_Done in H as (s & t1 & Hs & H).
  apply bind_Done in Hs as (v & t0 & Hv & Hs).
  apply random_Done in Hv as [-> Hv]. apply ret_Done in Hs as [<- <-].
  apply bind_Done in H as (dir & t2 & Hd & H).
  apply lift_Done in Hd as [Hd <-].
  apply bind_Done in H as (timer & t3 & Ht & H).
  apply randint_Done in Ht as [-> Ht]. apply ret_Done in H as [<- <-].
  exists v, dir, timer. auto.
Qed.

Lemma enemy_init_ok p k v dir timer t :
  unit_draw v -> 40 <= timer <= 120 -> Vector2.normalize (sway v) = Some dir ->
  Enemy.init p k (DUnit v :: DInt timer :: t) =
  Done (Enemy.mk k (Vector2.of_ints p) (Rect.centered 40 28 p) (Enemy.kind_hp k)
                 (Enemy.kind_speed k) (Enemy.kind_color k) dir timer) t.
Proof.
  intros Hv Ht Hd. unfold Enemy.init, random.uniform, bind.
  rewrite (random_ok v _ Hv). unfold ret at 1.
  fold (sway v). rewrite Hd. cbn [lift]. unfold ret at 1.
  rewrite (randint_ok 40 120 timer t Ht). reflexivity.
Qed.

Lemma spawn_enemy_Done t e t' :
  spawn_enemy t = Done e t' ->
  exists x u v dir timer,
    t = DInt x :: DUnit u :: DUnit v :: DInt timer :: t' /\
    40 <= x <= WIDTH - 40 /\ unit_draw u /\ unit_draw v /\ 40 <= timer <= 120 /\
    Vector2.normalize (sway v) = Some dir /\
    e = spawned x u dir timer.
Proof.
  unfold spawn_enemy. intros H.
  apply bind_Done in H as (x & t1 & Hx & H).
  apply randint_Done in Hx as [-> Hx].
  apply bind_Done in H as (k & t2 & Hk & H).
  rewrite choices_kind in Hk.
  apply bind_Done in Hk as (u & t3 & Hu & Hk).
  apply random_Done in Hu as [-> Hu]. apply ret_Done in Hk as [<- <-].
  apply enemy_init_Done in H as (v & dir & timer & -> & Hv & Ht & Hd & ->).
  exists x, u, v, dir, timer. repeat (split; [assumption || reflexivity|]).
  reflexivity.
Qed.

Lemma spawn_enemy_ok x u v dir timer t :
  40 <= x <= WIDTH - 40 -> unit_draw u -> unit_draw v -> 40 <= timer <= 120 ->
  Vector2.normalize (sway v) = Some dir ->
  spawn_enemy (DInt x :: DUnit u :: DUnit v :: DInt timer :: t) =
  Done (spawned x u dir timer) t.
Proof.
  intros Hx Hu Hv Ht Hd. unfold spawn_enemy, bind.
  rewrite (randint_ok 40 (WIDTH - 40) x _ Hx).
  rewrite choices_kind. unfold bind. rewrite (random_ok u _ Hu). unfold ret at 1.
  apply enemy_init_ok; assumption.
Qed.

Lemma kind_stats (k : Kind) :
  (k = Beginner /\ Enemy.kind_hp k = 1 /\ Enemy.kind_speed k = 1.0%float) \/
  (k = Mid /\ Enemy.kind_hp k = 2 /\ Enemy.kind_speed k = 1.2%float) \/
  (k = Hard /\ Enemy.kind_hp k = 3 /\ Enemy.kind_speed k = 0.9%float).
Proof. destruct k; simpl; auto. Qed.

Lemma spawn_due_Done g :
  spawn_timer g - 1 <= 0 ->
  forall t g' t',
    spawn_phase g t = Done g' t' ->
    exists n x u v dir timer,
      t = DInt n :: DInt x :: DUnit u :: DUnit v :: DInt timer :: t' /\
      18 <= n <= 42 /\ 40 <= x <= WIDTH - 40 /\ unit_draw u /\ unit_draw v /\
      40 <= timer <= 120 /\ Vector2.normalize (sway v) = Some dir /\
      g' = with_spawn g n [spawned x u dir timer].
Proof.
  intros Hdue t g' t' H. unfold spawn_phase in H.
  destruct (spawn_timer g - 1 <=? 0) eqn:E; [|lia].
  apply bind_Done in H as (n & t1 & Hn & H).
  apply randint_Done in Hn as [-> Hn].
  apply bind_Done in H as (e & t2 & He & H).
  apply ret_Done in H as [<- <-].
  apply spawn_enemy_Done in He
    as (x & u & v & dir & timer & -> & Hx & Hu & Hv & Ht & Hd & ->).
  exists n, x, u, v, dir, timer. auto 10.
Qed.

Lemma spawn_due_ok g n x u v dir timer t :
  spawn_timer g - 1 <= 0 ->
  18 <= n <= 42 -> 40 <= x <= WIDTH - 40 -> unit_draw u -> unit_draw v ->
  40 <= timer <= 120 -> Vector2.normalize (sway v) = Some dir ->
  spawn_phase g (DInt n :: DInt x :: DUnit u :: DUnit v :: DInt timer :: t) =
  Done (with_spawn g n [spawned x u dir timer]) t.
Proof.
  intros Hdue Hn Hx Hu Hv Ht Hd. unfold spawn_phase.
  destruct (spawn_timer g - 1 <=? 0) eqn:E; [|lia].
  unfold bind. rewrite (randint_ok 18 42 n _ Hn).
  rewrite (spawn_enemy_ok x u v dir timer t Hx Hu Hv Ht Hd). reflexivity.
Qed.

Lemma spawn_wait g t :
  0 < spawn_timer g - 1 ->
  spawn_phase g t = Done (with_spawn g (spawn_timer g - 1) []) t.
Proof.
  intros Hwait. unfold spawn_phase.
  destruct (spawn_timer g - 1 <=? 0) eqn:E; [lia|].
  unfold with_spawn. rewrite app_nil_r. reflexivity.
Qed.

Lemma spawned_place x u dir timer :
  Rect.center (Enemy.rect (spawned x u dir timer)) = (x, - 20) /\
  Rect.bottom (Enemy.rect (spawned x u dir timer)) < 0.
Proof.
  unfold spawned, Rect.center, Rect.bottom, Rect.centered.
  cbn [Enemy.rect Rect.x Rect.y Rect.width Rect.height fst snd].
  change (40 / 2) with 20. change (28 / 2) with 14.
  split; [f_equal; lia|lia].
Qed.

(** C6: when the countdown, one less, is <= 0, the spawn step draws the next
    countdown in [18, 42] and appends exactly one enemy: centred at [(x, -20)]
    with [x] drawn in [40, WIDTH - 40] (its box, 40 x 28, lies above the top
    edge), of the kind that [random.choices] selects with the weights 0.6,
    0.3 and 0.1 (the point [u * total] of the unit draw falls below 0.6: Beginner;
    below 0.6 + 0.3: Mid; else Hard), with hp 1/2/3 and speed 1.0/1.2/0.9 by
    kind.  Conversely every such tuple of draws is accepted, once the sway
    vector normalizes.  With the countdown still positive no enemy is made. *)
Theorem spawn_when_due (g : Game) :
  (spawn_timer g - 1 <= 0 ->
   (forall t g' t',
      spawn_phase g t = Done g' t' ->
      exists n x u v dir timer,
        t = DInt n :: DInt x :: DUnit u :: DUnit v :: DInt timer :: t' /\
        18 <= n <= 42 /\ 40 <= x <= WIDTH - 40 /\ unit_draw u /\
        g' = with_spawn g n [spawned x u dir timer] /\
        spawn_timer g' = n /\
        length (enemies g') = S (length (enemies g)) /\
        Rect.center (Enemy.rect (spawned x u dir timer)) = (x, - 20) /\
        Rect.bottom (Enemy.rect (spawned x u dir timer)) < 0 /\
        Enemy.kind (spawned x u dir timer) = kind_at (u * spawn_total)%float /\
        ((Enemy.kind (spawned x u dir timer) = Beginner /\
          Enemy.hp (spawned x u dir timer) = 1 /\
          Enemy.speed (spawned x u dir timer) = 1.0%float) \/
         (Enemy.kind (spawned x u dir timer) = Mid /\
          Enemy.hp (spawned x u dir timer) = 2 /\
          Enemy.speed (spawned x u dir timer) = 1.2%float) \/
         (Enemy.kind (spawned x u dir timer) = Hard /\
          Enemy.hp (spawned x u dir timer) = 3 /\
          Enemy.speed (spawned x u dir timer) = 0.9%float))) /\
   (forall n x u v dir timer t,
      18 <= n <= 42 -> 40 <= x <= WIDTH - 40 -> unit_draw u -> unit_draw v ->
      40 <= timer <= 120 -> Vector2.normalize (sway v) = Some dir ->
      spawn_phase g (DInt n :: DInt x :: DUnit u :: DUnit v :: DInt timer :: t) =
      Done (with_spawn g n [spawned x u dir timer]) t)) /\
  (0 < spawn_timer g - 1 ->
   forall t, spawn_phase g t = Done (with_spawn g (spawn_timer g - 1) []) t).
Proof.
  split.
  - intros Hdue. split.
    + intros t g' t' H.
      apply (spawn_due_Done g Hdue) in H
        as (n & x & u & v & dir & timer & -> & Hn & Hx & Hu & _ & _ & _ & ->).
      exists n, x, u, v, dir, timer.
      split; [reflexivity|]. split; [exact Hn|]. split; [exact Hx|].
      split; [exact Hu|]. split; [reflexivity|]. split; [reflexivity|].
      split; [cbn; rewrite length_app; simpl; lia|].
      destruct (spawned_place x u dir timer) as [Hc Hb].
      split; [exact Hc|]. split; [exact Hb|]. split; [reflexivity|].
      unfold spawned. cbn [Enemy.kind Enemy.hp Enemy.speed]. apply kind_stats.
    + intros n x u v dir timer t. apply spawn_due_ok. exact Hdue.
  - intros Hwait t. apply spawn_wait. exact Hwait.
Qed.

Lemma spawn_when_due_witness :
  spawn_phase initial
    [DInt 42; DInt 450; DUnit 0.95%float; DUnit 0.5%float; DInt 73]
  = Done (with_spawn initial 42
            [spawned 450 0.95%float (Vector2.mk 0%float 1%float) 73]) [] /\
  Enemy.kind (spawned 450 0.95%float (Vector2.mk 0%float 1%float) 73) = Hard.
Proof.
  split; [|vm_compute; reflexivity].
  apply (proj1 (spawn_when_due initial)).
  - simpl. lia.
  - lia.
  - unfold WIDTH. lia.
  - split; vm_compute; reflexivity.
  - split; vm_compute; reflexivity.
  - lia.
  - vm_compute. reflexivity.
Defined.

(** ** Updates *)

Lemma update_phase_Some ks g g' :
  update_phase ks g = Some g' ->
  exists es ps bs ps' bs' xs,
    update_group Enemy.update (enemies g) = Some es /\
    update_group Projectile.update (projectiles g) = Some ps /\
    update_group Bomb.update (bombs g) = Some bs /\
    update_group Projectile.update ps = Some ps' /\
    update_group Bomb.update bs = Some bs' /\
    update_group Explosion.update (explosions g) = Some xs /\
    g' = mkGame (Player.update ks (player g)) es ps' bs' xs (spawn_timer g) (running g).
Proof.
  unfold update_phase. intros H.
  destruct (update_group Enemy.update (enemies g)) as [es|] eqn:E1; [|discriminate].
  destruct (update_group Projectile.update (projectiles g)) as [ps|] eqn:E2;
    [|discriminate].
  destruct (update_group Bomb.update (bombs g)) as [bs|] eqn:E3; [|discriminate].
  cbn in H.
  destruct (update_group Projectile.update ps) as [ps'|] eqn:E4; [|discriminate].
  destruct (update_group Bomb.update bs) as [bs'|] eqn:E5; [|discriminate].
  destruct (update_group Explosion.update (explosions g)) as [xs|] eqn:E6;
    [|discriminate].
  cbn in H. injection H as <-.
  exists es, ps, bs, ps', bs', xs. auto 10.
Qed.

Lemma bomb_update_vel b b' alive :
  Bomb.update b = Some (b', alive) ->
  Bomb.vel b' = Bomb.vel b /\ Bomb.pos b' = Vector2.add (Bomb.pos b) (Bomb.vel b).
Proof.
  unfold Bomb.update. intros H.
  destruct (py_int (Vector2.x _)) as [cx|]; [|discriminate].
  destruct (py_int (Vector2.y _)) as [cy|]; [|discriminate].
  injection H as <- _. split; reflexivity.
Qed.

Lemma enemy_update_keeps e e' alive :
  Enemy.update e = Some (e', alive) ->
  Enemy.hp e' = Enemy.hp e /\ Enemy.kind e' = Enemy.kind e.
Proof.
  unfold Enemy.update. intros H.
  destruct (py_int (Vector2.x _)) as [cx|]; [|discriminate].
  destruct (py_int (Vector2.y _)) as [cy|]; [|discriminate].
  injection H as <- _. split; reflexivity.
Qed.

(** ** Enemy shooting *)

Lemma shoot_Done target e t e' bs t' :
  shoot target e t = Done (e', bs) t' ->
  (Enemy.kind e <> Hard /\ e' = e /\ bs = [] /\ t' = t) \/
  (Enemy.kind e = Hard /\ 0 < Enemy.shoot_timer e - 1 /\
   e' = Enemy.set_shoot_timer e (Enemy.shoot_timer e - 1) /\ bs = [] /\ t' = t) \/
  (Enemy.kind e = Hard /\ Enemy.shoot_timer e - 1 <= 0 /\
   exists n b, t = DInt n :: t' /\ 60 <= n <= 140 /\
               Bomb.init (Rect.center (Enemy.rect e)) target = Some b /\
               e' = Enemy.set_shoot_timer e n /\ bs = [b]).
Proof.
  unfold shoot. intros H.
  destruct (Enemy.kind e) eqn:Ek.
  - apply ret_Done in H as [H <-]. injection H as <- <-. left. auto.
  - apply ret_Done in H as [H <-]. injection H as <- <-. left. auto.
  - right. destruct (Enemy.shoot_timer e - 1 <=? 0) eqn:E.
    + right. split; [reflexivity|]. split; [lia|].
      apply bind_Done in H as (n & t1 & Hn & H).
      apply randint_Done in Hn as [-> Hn].
      apply bind_Done in H as (b & t2 & Hb & H).
      apply lift_Done in Hb as [Hb <-].
      apply ret_Done in H as [H <-]. injection H as <- <-.
      exists n, b. auto.
    + left. apply ret_Done in H as [H <-]. injection H as <- <-.
      split; [reflexivity|]. split; [lia|]. auto.
Qed.

Lemma shoot_keeps target e t e' bs t' :
  shoot target e t = Done (e', bs) t' ->
  Enemy.hp e' = Enemy.hp e /\ Enemy.kind e' = Enemy.kind e /\
  Enemy.rect e' = Enemy.rect e.
Proof.
  intros H. apply shoot_Done in H
    as [(_ & -> & _)|[(_ & _ & -> & _)|(_ & _ & n & b & _ & _ & _ & -> & _)]]; auto.
Qed.

Lemma shoot_phase_Done g t g' t' :
  shoot_phase g t = Done g' t' ->
  exists new,
    bombs g' = bombs g ++ new /\
    Forall (fired_at (Rect.center (Player.rect (player g))) (enemies g)) new /\
    Forall2 (fun e e' => Enemy.hp e' = Enemy.hp e /\ Enemy.kind e' = Enemy.kind e)
            (enemies g) (enemies g') /\
    player g' = player g /\ running g' = running g /\
    projectiles g' = projectiles g /\ explosions g' = explosions g.
Proof.
  unfold shoot_phase. intros H.
  apply bind_Done in H as (rs & t1 & Hrs & H).
  apply ret_Done in H as [<- <-]. cbn.
  apply mapM_Done in Hrs.
  exists (concat (map snd rs)). split; [reflexivity|].
  split; [|split; [|auto]].
  - induction Hrs as [|e [e' bs] es rs' (t2 & t3 & Hs) _ IH]; [constructor|].
    cbn [map concat snd]. apply Forall_app. split.
    + apply shoot_Done in Hs
        as [(_ & _ & -> & _)|[(_ & _ & _ & -> & _)|(Hk & Hz & n & b & _ & _ & Hb & _ & ->)]];
        try constructor; [|constructor].
      exists e. split; [left|auto].
    + eapply Forall_impl; [exact IH|]. cbn.
      intros b (e0 & Hin & Hrest). exists e0. split; [right; exact Hin|exact Hrest].
  - induction Hrs as [|e [e' bs] es rs' (t2 & t3 & Hs) _ IH]; [constructor|].
    cbn [map fst]. constructor; [|exact IH].
    apply shoot_keeps in Hs. tauto.
Qed.

(** ** Enemy health, kills and the score *)



Lemma hit_phase_fields g :
  hit_phase g =
  mkGame (set_score (player g) (c_score (snd (hit_loop (projectiles g) (combat_of g)))))
         (c_enemies (snd (hit_loop (projectiles g) (combat_of g))))
         (fst (hit_loop (projectiles g) (combat_of g))) (bombs g)
         (c_explosions (snd (hit_loop (projectiles g) (combat_of g))))
         (spawn_timer g) (running g).
Proof.
  unfold hit_phase, combat_of.
  destruct (hit_loop _ _) as [kept c]. reflexivity.
Qed.

Lemma bomb_phase_vitals g :
  Player.score (player (bomb_phase g)) = Player.score (player g) /\
  enemies (bomb_phase g) = enemies g /\
  bombs (bomb_phase g) `sublist_of` bombs g /\
  life_step g (bomb_phase g).
Proof.
  unfold bomb_phase, life_step.
  destruct (spritecollideany _ _ _) as [[i0 b0]|];
    [|split; [|split; [|split]]; auto].
  destruct (list_find _ _) as [[i b]|];
    [|split; [|split; [|split]]; auto].
  cbn. split; [reflexivity|]. split; [reflexivity|].
  split; [apply sublist_delete|]. right. auto.
Qed.

Lemma collide_phase_vitals g :
  Player.score (player (collide_phase g)) = Player.score (player g) /\
  enemies (collide_phase g) `sublist_of` enemies g /\
  bombs (collide_phase g) = bombs g /\
  life_step g (collide_phase g).
Proof.
  unfold collide_phase, life_step.
  destruct (spritecollideany _ _ _) as [[i e]|];
    [|split; [|split; [|split]]; auto].
  cbn. split; [reflexivity|]. split; [apply sublist_delete|].
  split; [reflexivity|]. right. auto.
Qed.

(** ** A tick up to the combat resolution *)

Lemma spawn_phase_Done g t g' t' :
  spawn_phase g t = Done g' t' ->
  exists n new, g' = with_spawn g n new /\ healthy new.
Proof.
  destruct (Z_le_gt_dec (spawn_timer g - 1) 0) as [Hdue|Hwait].
  - intros H.
    apply (spawn_due_Done g Hdue) in H
      as (n & x & u & v & dir & timer & _ & _ & _ & _ & _ & _ & _ & ->).
    exists n, [spawned x u dir timer]. split; [reflexivity|].
    constructor; [|constructor]. unfold spawned. cbn [Enemy.hp].
    destruct (kind_at _); simpl; lia.
  - intros H. rewrite (spawn_wait g) in H by lia.
    injection H as <- <-. exists (spawn_timer g - 1), [].
    split; [reflexivity|constructor].
Qed.

Lemma update_group_flight bs bs' :
  update_group Bomb.update bs = Some bs' -> Forall (same_flight bs) bs'.
Proof.
  intros H. apply update_group_Some in H.
  eapply Forall_impl; [exact H|]. cbn.
  intros b' (b & alive & Hin & Hu). exists b. split; [exact Hin|].
  apply bomb_update_vel in Hu. tauto.
Qed.

Lemma update_group_healthy es es' :
  update_group Enemy.update es = Some es' -> healthy es -> healthy es'.
Proof.
  intros H Hh. apply update_group_Some in H.
  eapply Forall_impl; [exact H|]. cbn.
  intros e' (e & alive & Hin & Hu).
  apply enemy_update_keeps in Hu as [-> _].
  unfold healthy in Hh. rewrite Forall_forall in Hh. apply Hh. exact Hin.
Qed.

(** A tick up to the combat resolution. *)
Lemma tick_entry pf inp g t g' t' :
  tick pf inp g t = Done g' t' ->
  exists gm,
    g' = collide_phase (bomb_phase (hit_phase gm)) /\
    calm g gm /\
    (healthy (enemies g) -> healthy (enemies gm)) /\
    Forall (fun b => same_flight (bombs g) b \/
                     exists target es, fired_at target es b) (bombs gm).
Proof.
  intros H. apply tick_phases in H as (g2 & g3 & g4 & t1 & H2 & H3 & H4 & ->).
  destruct (handle_events_calm pf (events inp) g) as (Hc1 & He1 & Hb1).
  set (g1 := fold_left (handle_event pf) (events inp) g) in *.
  apply spawn_phase_Done in H2 as (n & new & -> & Hnew).
  apply update_phase_Some in H3
    as (es & ps & bs & ps' & bs' & xs & Ees & _ & Ebs & _ & Ebs' & _ & ->).
  apply shoot_phase_Done in H4 as (fresh & Hb4 & Hfresh & He4 & Hp4 & Hr4 & _).
  cbn in *. exists g4. split; [reflexivity|]. split; [|split].
  - destruct Hc1 as [L S R]. split; rewrite ?Hp4, ?Hr4; cbn; auto.
  - intros Hh. rewrite <- He1 in Hh.
    assert (Hes : healthy es).
    { eapply update_group_healthy; [exact Ees|]. apply Forall_app. split; assumption. }
    clear - He4 Hes. induction He4 as [|e e' l l' [Hhp _] _ IH]; [constructor|].
    inversion Hes; subst. constructor; [lia|apply IH; assumption].
  - rewrite Hb4. apply Forall_app. split.
    + apply update_group_flight in Ebs, Ebs'.
      eapply Forall_impl; [exact Ebs'|]. cbn. intros b' (b & Hin & Hv). left.
      rewrite Forall_forall in Ebs. destruct (Ebs b Hin) as (b0 & Hin0 & Hv0).
      exists b0. split; [rewrite <- Hb1; exact Hin0|congruence].
    + eapply Forall_impl; [exact Hfresh|]. cbn. intros b Hb. right. eauto.
Qed.


(** ** Invariants of the reachable states *)

Lemma Forall_sublist_of {A} (P : A -> Prop) (l1 l2 : list A) :
  l1 `sublist_of` l2 -> Forall P l2 -> Forall P l1.
Proof.
  intros Hs H. rewrite Forall_forall in *. intros x Hx.
  apply H. eapply elem_of_sublist; eauto.
Qed.



(** ** Bombs in flight *)



(** ** Runs *)

Lemma run_reachable pf inps : forall g t g' t',
  reachable pf g -> run pf inps g t = Done g' t' -> reachable pf g'.
Proof.
  induction inps as [|inp rest IH]; intros g t g' t' Hr H; cbn [run] in H.
  - apply ret_Done in H as [<- _]. exact Hr.
  - destruct (running g) eqn:Erun.
    + apply bind_Done in H as (g1 & t1 & Ht & H).
      eapply IH; [|exact H]. eapply reach_step; [exact Hr|].
      split; [exact Erun|]. eauto.
    + apply ret_Done in H as [<- _]. exact Hr.
Qed.

Lemma run_stopped pf inps g t : running g = false -> run pf inps g t = Done g t.
Proof. intros H. destruct inps; cbn [run]; [|rewrite H]; reflexivity. Qed.

Lemma before_kill_reachable : reachable desktop before_kill.
Proof.
  apply (run_reachable desktop duel_inputs initial duel_tape before_kill []).
  - constructor.
  - vm_compute. reflexivity.
Qed.



(** ** Lives *)

Lemma life_steps g0 g1 g2 :
  life_step g0 g1 -> life_step g1 g2 ->
  Player.lives (player g0) - 2 <= Player.lives (player g2) <= Player.lives (player g0) /\
  (1 <= Player.lives (player g0) -> Player.lives (player g2) <= 0 -> running g2 = false).
Proof.
  unfold life_step. intros [[L1 R1]|[L1 R1]] [[L2 R2]|[L2 R2]];
    rewrite R2, ?R1, L2, ?L1; (split; [lia|]); intros Hpos Hz;
    repeat match goal with
           | |- context [?a <=? 0] => destruct (a <=? 0) eqn:?
           end; try reflexivity; lia.
Qed.

Lemma tick_lives pf inp g t g' t' :
  tick pf inp g t = Done g' t' ->
  Player.lives (player g) - 2 <= Player.lives (player g') <= Player.lives (player g) /\
  (1 <= Player.lives (player g) -> Player.lives (player g') <= 0 -> running g' = false).
Proof.
  intros H. apply tick_entry in H as (gm & -> & [Hl _ _] & _).
  destruct (bomb_phase_vitals (hit_phase gm)) as (_ & _ & _ & Hb).
  destruct (collide_phase_vitals (bomb_phase (hit_phase gm))) as (_ & _ & _ & Hc).
  pose proof (life_steps _ _ _ Hb Hc) as Hls.
  assert (Hh : Player.lives (player (hit_phase gm)) = Player.lives (player g)).
  { rewrite hit_phase_fields. exact Hl. }
  rewrite Hh in Hls. exact Hls.
Qed.

(** C1, as stated, fails: in frame 159 of the ambush a bomb and the Hard
    enemy that dropped it both reach the player, who has one life left; the
    bomb takes it and the collision takes one more.  Before that frame the
    player's box has its top at y = 60, the bomb's box ends at y = 59 and
    the enemy's at y = 60; in the frame the bomb moves 9 pixels down (two
    updates) and the enemy 0.9, and both boxes overlap the player's. *)
Lemma lives_reach_minus_one :
  reachable desktop last_life /\
  Player.lives (player last_life) = 1 /\ running last_life = true /\
  Player.rect (player last_life) = Rect.mk 370 60 160 102 /\
  map Bomb.rect (bombs last_life) = [Rect.mk 445 49 10 10] /\
  map (fun e => (Enemy.kind e, Enemy.rect e)) (enemies last_life)
  = [(Hard, Rect.mk 430 32 40 28); (Beginner, Rect.mk 20 (- 2) 40 28)] /\
  step desktop last_life overkill /\
  reachable desktop overkill /\
  map (fun x => (Explosion.pos x, Explosion.radius x)) (explosions overkill)
  = [((450, 63), 36); ((450, 47), 28)] /\
  Player.lives (player overkill) = - 1 /\
  ~ (forall g, reachable desktop g -> 0 <= Player.lives (player g)).
Proof.
  assert (Hr : reachable desktop last_life).
  { apply (run_reachable desktop ambush_inputs initial ambush_tape last_life []).
    - constructor.
    - vm_compute. reflexivity. }
  assert (Hs : step desktop last_life overkill).
  { split; [vm_compute; reflexivity|].
    exists quiet, [], []. vm_compute. reflexivity. }
  assert (Hr' : reachable desktop overkill) by (eapply reach_step; eassumption).
  assert (Hl : Player.lives (player overkill) = - 1) by (vm_compute; reflexivity).
  split; [exact Hr|].
  split; [vm_compute; reflexivity|]. split; [vm_compute; reflexivity|].
  split; [vm_compute; reflexivity|]. split; [vm_compute; reflexivity|].
  split; [vm_compute; reflexivity|].
  split; [exact Hs|]. split; [exact Hr'|].
  split; [vm_compute; reflexivity|]. split; [exact Hl|].
  intros H. specialize (H overkill Hr'). rewrite Hl in H. lia.
Qed.

(** C1 (amended): in every reachable state the lives are at most 3 and at
    least -1, and when they are <= 0 the loop has stopped; a tick never
    raises the lives and lowers them by at most 2 (one for a bomb, one for a
    colliding enemy); a stopped loop takes no further step and stays in its
    state. *)
Theorem lives_invariant (pf : Platform) (g : Game) :
  reachable pf g ->
  - 1 <= Player.lives (player g) <= 3 /\
  (Player.lives (player g) <= 0 -> running g = false) /\
  (forall g', step pf g g' ->
     Player.lives (player g) - 2 <= Player.lives (player g') <= Player.lives (player g)) /\
  (running g = false ->
   (forall g', ~ step pf g g') /\ (forall inps t, run pf inps g t = Done g t)).
Proof.
  intros Hr.
  assert (Hinv : - 1 <= Player.lives (player g) <= 3 /\
                 (Player.lives (player g) <= 0 -> running g = false)).
  { induction Hr as [|g g' _ IH [Hrun (inp & t & t' & Ht)]].
    - cbn. split; [lia|]. intros H. lia.
    - destruct IH as [Hb Hz]. apply tick_lives in Ht as [Hd Hstop].
      assert (Hpos : 1 <= Player.lives (player g)).
      { destruct (Z_le_gt_dec (Player.lives (player g)) 0) as [Hle|Hgt]; [|lia].
        rewrite (Hz Hle) in Hrun. discriminate. }
      split; [lia|]. intros Hle. exact (Hstop Hpos Hle). }
  destruct Hinv as [Hb Hz]. split; [exact Hb|]. split; [exact Hz|]. split.
  - intros g' [_ (inp & t & t' & Ht)]. apply tick_lives in Ht. tauto.
  - intros Hstop. split.
    + intros g' [Hrun _]. rewrite Hstop in Hrun. discriminate.
    + intros inps t. apply run_stopped. exact Hstop.
Qed.

Lemma lives_invariant_witness :
  - 1 <= Player.lives (player initial) <= 3 /\
  (forall g', step desktop initial g' ->
     Player.lives (player initial) - 2 <= Player.lives (player g')
     <= Player.lives (player initial)).
Proof.
  destruct (lives_invariant desktop initial (reach_initial desktop)) as (Hb & _ & Hs & _).
  split; [exact Hb|exact Hs].
Defined.

(** * Further properties of the code *)

(** ** Player.update: movement *)

(** X1: whatever the keys and wherever the box was, after [Player.update] the
    player's box lies in the field (10 pixels from the left, right and
    bottom edges, below the 60-pixel band at the top), provided the box fits
    in it; its size, the lives, the score, the element and the speed are
    unchanged. *)
Theorem update_keeps_in_field (ks : Keys) (s : Player.t) :
  Rect.width (Player.rect s) <= WIDTH - 20 ->
  Rect.height (Player.rect s) <= HEIGHT - 70 ->
  let s' := Player.update ks s in
  Rect.width (Player.rect s') = Rect.width (Player.rect s) /\
  Rect.height (Player.rect s') = Rect.height (Player.rect s) /\
  10 <= Rect.x (Player.rect s') <= WIDTH - 10 - Rect.width (Player.rect s) /\
  60 <= Rect.y (Player.rect s') <= HEIGHT - 10 - Rect.height (Player.rect s) /\
  Player.lives s' = Player.lives s /\ Player.score s' = Player.score s /\
  Player.element s' = Player.element s /\ Player.speed s' = Player.speed s.
Proof.
  intros Hw Hh s'. unfold s', Player.update.
  cbn [Player.rect Player.lives Player.score Player.element Player.speed
       Rect.x Rect.y Rect.width Rect.height].
  unfold WIDTH, HEIGHT in *. repeat split; lia.
Qed.

Lemma update_keeps_in_field_witness :
  Rect.x (Player.rect (Player.update right_and_left (Player.init (2000, -300)))) = 730 /\
  Rect.y (Player.rect (Player.update right_and_left (Player.init (2000, -300)))) = 60.
Proof.
  destruct (update_keeps_in_field right_and_left (Player.init (2000, -300)))
    as (_ & _ & Hx & Hy & _).
  - vm_compute. discriminate.
  - vm_compute. discriminate.
  - split; vm_compute; reflexivity.
Defined.

(** X2: for a player inside the field, one update moves the box by the speed
    along each axis, stopping at the border: to the right when a right key
    is held (even with a left key held as well), else to the left when a
    left key is held, else not at all; and likewise down before up. *)
Theorem update_key_precedence (ks : Keys) (s : Player.t) :
  0 <= Player.speed s ->
  10 <= Rect.x (Player.rect s) <= WIDTH - 10 - Rect.width (Player.rect s) ->
  60 <= Rect.y (Player.rect s) <= HEIGHT - 10 - Rect.height (Player.rect s) ->
  Rect.x (Player.rect (Player.update ks s)) =
    (if K_RIGHT ks || K_d ks
     then Z.min (WIDTH - 10 - Rect.width (Player.rect s))
                (Rect.x (Player.rect s) + Player.speed s)
     else if K_LEFT ks || K_a ks
          then Z.max 10 (Rect.x (Player.rect s) - Player.speed s)
          else Rect.x (Player.rect s)) /\
  Rect.y (Player.rect (Player.update ks s)) =
    (if K_DOWN ks || K_s ks
     then Z.min (HEIGHT - 10 - Rect.height (Player.rect s))
                (Rect.y (Player.rect s) + Player.speed s)
     else if K_UP ks || K_w ks
          then Z.max 60 (Rect.y (Player.rect s) - Player.speed s)
          else Rect.y (Player.rect s)).
Proof.
  intros Hs Hx Hy. unfold Player.update. cbn [Player.rect Rect.x Rect.y].
  split.
  - destruct (K_RIGHT ks || K_d ks), (K_LEFT ks || K_a ks); lia.
  - destruct (K_DOWN ks || K_s ks), (K_UP ks || K_w ks); lia.
Qed.

Lemma update_key_precedence_witness :
  Rect.x (Player.rect (Player.update right_and_left (Player.init (450, 520)))) = 374 /\
  Rect.y (Player.rect (Player.update up_and_down (Player.init (450, 520)))) = 473.
Proof.
  split.
  - rewrite (proj1 (update_key_precedence right_and_left (Player.init (450, 520))
                      ltac:(vm_compute; discriminate)
                      ltac:(vm_compute; split; discriminate)
                      ltac:(vm_compute; split; discriminate))).
    vm_compute. reflexivity.
  - rewrite (proj2 (update_key_precedence up_and_down (Player.init (450, 520))
                      ltac:(vm_compute; discriminate)
                      ltac:(vm_compute; split; discriminate)
                      ltac:(vm_compute; split; discriminate))).
    vm_compute. reflexivity.
Defined.

(** ** Events: element keys and the space bar *)

Lemma set_element_same (g : Game) :
  set_player g (set_element (player g) (Player.element (player g))) = g.
Proof. destruct g as [[] ? ? ? ? ? ?]. reflexivity. Qed.

Lemma order_round_trip el : order_nth (order_index el) = el.
Proof. destruct el; reflexivity. Qed.

(** X3: the cycle keys are inverse to each other and of order three: E then
    Q, or Q then E, or E three times, give the game back unchanged; E goes
    Air, Water, Fire, Air (and Q the other way round); [order[order.index(el)]]
    is [el]. *)
Theorem element_cycle (pf : Platform) (g : Game) :
  handle_event pf (handle_event pf g (KEYDOWN K_e)) (KEYDOWN K_q) = g /\
  handle_event pf (handle_event pf g (KEYDOWN K_q)) (KEYDOWN K_e) = g /\
  handle_event pf (handle_event pf (handle_event pf g (KEYDOWN K_e)) (KEYDOWN K_e))
               (KEYDOWN K_e) = g /\
  handle_event pf (handle_event pf g (KEYDOWN K_e)) (KEYDOWN K_e)
  = handle_event pf g (KEYDOWN K_q) /\
  Player.element (player (handle_event pf g (KEYDOWN K_e))) =
    match Player.element (player g) with Air => Water | Water => Fire | Fire => Air end /\
  order_nth (order_index (Player.element (player g))) = Player.element (player g).
Proof.
  destruct g as [[sp r l sc el cd] es ps bs xs tm rn].
  repeat split; destruct el; reflexivity.
Qed.

(** X4: a key of the element group (1, 2, 3, Q, E) changes the element and
    nothing else; 1, 2 and 3 select Air, Water and Fire whatever the element
    was.  In particular the cooldown is kept: while it is positive, [fire()]
    still returns no shot after the change of element. *)
Theorem element_keys_frame (pf : Platform) (g : Game) (k : Key) :
  k = K_1 \/ k = K_2 \/ k = K_3 \/ k = K_q \/ k = K_e ->
  exists el,
    handle_event pf g (KEYDOWN k) = set_player g (set_element (player g) el) /\
    (k = K_1 -> el = Air) /\ (k = K_2 -> el = Water) /\ (k = K_3 -> el = Fire) /\
    Player.fire_cooldown (player (handle_event pf g (KEYDOWN k)))
    = Player.fire_cooldown (player g) /\
    (0 < Player.fire_cooldown (player g) ->
     Player.fire pf (player (handle_event pf g (KEYDOWN k)))
     = (player (handle_event pf g (KEYDOWN k)), [])).
Proof.
  intros Hk.
  assert (H : exists el,
             handle_event pf g (KEYDOWN k) = set_player g (set_element (player g) el) /\
             (k = K_1 -> el = Air) /\ (k = K_2 -> el = Water) /\ (k = K_3 -> el = Fire)).
  { destruct Hk as [-> | [-> | [-> | [-> | ->]]]]; cbn [handle_event];
      eexists; (split; [reflexivity|]); repeat split; intros; congruence. }
  destruct H as (el & E & H1 & H2 & H3). exists el.
  split; [exact E|]. split; [exact H1|]. split; [exact H2|]. split; [exact H3|].
  rewrite E. cbn [player set_player set_element Player.fire_cooldown].
  split; [reflexivity|]. intros Hc. apply fire_blocked. exact Hc.
Qed.

Lemma element_keys_frame_witness :
  Player.element (player (handle_event desktop after_kill (KEYDOWN K_2))) = Water /\
  Player.fire_cooldown (player (handle_event desktop after_kill (KEYDOWN K_2))) = 0.
Proof.
  destruct (element_keys_frame desktop after_kill K_2) as (el & E & _ & H2 & _ & Hc & _).
  - right. left. reflexivity.
  - rewrite Hc. rewrite E. cbn [player set_player set_element Player.element].
    split; [apply H2; reflexivity|vm_compute; reflexivity].
Defined.



(** ** Player.fire: the bursts *)

(** X6: with the cooldown at 0, Air and Fire give exactly one shot that
    flies straight up, at 8 and 12 pixels per update; every shot of every
    burst starts 10 pixels above the centre of the player's box, carries
    the player's element, and has the radius and colour of that element
    and a square box of side twice the radius centred at its start. *)
Theorem bursts (pf : Platform) (s : Player.t) :
  Player.fire_cooldown s <= 0 ->
  let start := (fst (Rect.center (Player.rect s)), snd (Rect.center (Player.rect s)) - 10) in
  (Player.element s = Air ->
   map Projectile.vel (snd (Player.fire pf s)) = [Vector2.mk 0%float (-8)%float]) /\
  (Player.element s = Fire ->
   map Projectile.vel (snd (Player.fire pf s)) = [Vector2.mk 0%float (-12)%float]) /\
  Forall (fun shot =>
            Projectile.pos shot = Vector2.of_ints start /\
            Projectile.element shot = Player.element s /\
            projectile_ok shot /\
            Rect.center (Projectile.rect shot) = start)
         (snd (Player.fire pf s)).
Proof.
  intros Hc start. unfold Player.fire.
  destruct (0 <? Player.fire_cooldown s) eqn:E; [lia|].
  unfold start. destruct (Rect.center (Player.rect s)) as [cx cy]. cbn [fst snd].
  assert (Hshot : forall v el,
            let shot := Projectile.init (sprite_exists pf el) (cx, cy - 10) v el in
            Projectile.pos shot = Vector2.of_ints (cx, cy - 10) /\
            Projectile.element shot = el /\ projectile_ok shot /\
            Rect.center (Projectile.rect shot) = (cx, cy - 10)).
  { intros v el shot. unfold shot.
    destruct (sprite_exists pf el); rewrite ?projectile_init_branches;
      unfold Projectile.init; cbn [Projectile.pos Projectile.element];
      (split; [reflexivity|]); (split; [reflexivity|]);
      (split;
       [split; cbn [Projectile.radius Projectile.color Projectile.element
                    Projectile.rect Rect.centered Rect.width Rect.height]; auto|]);
      unfold Rect.center, Rect.centered;
      cbn [Projectile.rect Rect.x Rect.y Rect.width Rect.height fst snd];
      destruct el; cbn [Projectile.fallback_radius];
      f_equal; lia. }
  split; [|split].
  - intros ->. cbn [snd map]. unfold Projectile.init.
    destruct (sprite_exists pf Air); cbn [Projectile.vel];
      change (Vector2.of_ints (0, - 8)) with (Vector2.mk 0%float (-8)%float);
      reflexivity.
  - intros ->. cbn [snd map]. unfold Projectile.init.
    destruct (sprite_exists pf Fire); cbn [Projectile.vel];
      change (Vector2.of_ints (0, - 12)) with (Vector2.mk 0%float (-12)%float);
      reflexivity.
  - destruct (Player.element s); cbn [snd map Player.spread];
      repeat constructor; apply Hshot.
Qed.

Lemma bursts_witness :
  map Projectile.vel (snd (Player.fire desktop (Player.init (450, 520))))
  = [Vector2.mk 0%float (-8)%float].
Proof.
  refine (proj1 (bursts desktop (Player.init (450, 520)) _) _).
  - vm_compute. discriminate.
  - reflexivity.
Defined.

(** ** Bomb.update and Enemy.update: leaving the screen *)

(** X7: [Bomb.update] moves the bomb by its velocity (the new position is the
    old one plus the velocity, the velocity is unchanged), centres its box,
    of unchanged size, at the truncated position and removes the bomb
    exactly when the box is below the bottom edge or beyond the left or
    right edge.  Unlike a projectile, a bomb whose box is above the top edge
    is never removed. *)
Theorem bomb_cleanup (b b' : Bomb.t) (alive : bool) :
  Bomb.update b = Some (b', alive) ->
  Bomb.pos b' = Vector2.add (Bomb.pos b) (Bomb.vel b) /\
  Bomb.vel b' = Bomb.vel b /\
  exists cx cy,
    py_int (Vector2.x (Bomb.pos b')) = Some cx /\
    py_int (Vector2.y (Bomb.pos b')) = Some cy /\
    Bomb.rect b' = Rect.set_center (Bomb.rect b) (cx, cy) /\
    Rect.width (Bomb.rect b') = Rect.width (Bomb.rect b) /\
    Rect.height (Bomb.rect b') = Rect.height (Bomb.rect b) /\
    (alive = false <->
     HEIGHT < Rect.top (Bomb.rect b') \/ WIDTH < Rect.left (Bomb.rect b') \/
     Rect.right (Bomb.rect b') < 0) /\
    (Rect.top (Bomb.rect b') <= HEIGHT -> 0 <= Rect.right (Bomb.rect b') ->
     Rect.left (Bomb.rect b') <= WIDTH -> alive = true).
Proof.
  unfold Bomb.update. intros H.
  destruct (py_int (Vector2.x _)) as [cx|] eqn:Ex; [|discriminate].
  destruct (py_int (Vector2.y _)) as [cy|] eqn:Ey; [|discriminate].
  injection H as <- <-. cbn [Bomb.pos Bomb.vel Bomb.rect].
  split; [reflexivity|]. split; [reflexivity|]. exists cx, cy.
  split; [exact Ex|]. split; [exact Ey|]. split; [reflexivity|].
  split; [reflexivity|]. split; [reflexivity|].
  unfold Bomb.off_screen.
  split.
  - rewrite negb_false_iff, !orb_true_iff, !Z.ltb_lt. tauto.
  - intros Ht Hr Hl. rewrite negb_true_iff, !orb_false_iff, !Z.ltb_ge. auto.
Qed.

Lemma bomb_cleanup_witness :
  exists b', Bomb.update high_bomb = Some (b', true) /\
             Bomb.pos b' = Vector2.add (Bomb.pos high_bomb) (Bomb.vel high_bomb) /\
             Bomb.pos b' = Vector2.mk 450%float (-44.5)%float /\
             Rect.bottom (Bomb.rect b') = - 39.
Proof.
  destruct (bomb_cleanup high_bomb
              (Bomb.mk (Vector2.mk 450%float (-44.5)%float) (Vector2.mk 0%float (-4.5)%float)
                       (Rect.mk 445 (- 49) 10 10)) true)
    as (Hp & _ & cx & cy & _ & _ & Hr & _); [vm_compute; reflexivity|].
  eexists. split; [vm_compute; reflexivity|]. split; [exact Hp|].
  split; vm_compute; reflexivity.
Defined.

(** X8: [Enemy.update] moves the enemy by its direction times its speed and
    centres its box at the truncated position; the kind, hp, speed, colour,
    direction, shoot timer and box size are unchanged; the enemy is removed
    exactly when the top of its box is more than 20 pixels below the bottom
    edge, and so never for leaving by the top or a side. *)
Theorem enemy_update_spec (e e' : Enemy.t) (alive : bool) :
  Enemy.update e = Some (e', alive) ->
  Enemy.pos e' = Vector2.add (Enemy.pos e) (Vector2.scale (Enemy.direction e) (Enemy.speed e)) /\
  (exists cx cy,
     py_int (Vector2.x (Enemy.pos e')) = Some cx /\
     py_int (Vector2.y (Enemy.pos e')) = Some cy /\
     Enemy.rect e' = Rect.set_center (Enemy.rect e) (cx, cy)) /\
  e' = Enemy.mk (Enemy.kind e) (Enemy.pos e') (Enemy.rect e') (Enemy.hp e) (Enemy.speed e)
                (Enemy.color e) (Enemy.direction e) (Enemy.shoot_timer e) /\
  Rect.width (Enemy.rect e') = Rect.width (Enemy.rect e) /\
  Rect.height (Enemy.rect e') = Rect.height (Enemy.rect e) /\
  (alive = false <-> HEIGHT + 20 < Rect.top (Enemy.rect e')).
Proof.
  unfold Enemy.update. intros H.
  destruct (py_int (Vector2.x _)) as [cx|] eqn:Ex; [|discriminate].
  destruct (py_int (Vector2.y _)) as [cy|] eqn:Ey; [|discriminate].
  injection H as <- <-. cbn [Enemy.pos Enemy.rect].
  split; [reflexivity|]. split; [exists cx, cy; auto|].
  split; [reflexivity|]. split; [reflexivity|]. split; [reflexivity|].
  rewrite negb_false_iff, Z.ltb_lt. tauto.
Qed.

Lemma enemy_update_spec_witness :
  exists e', Enemy.update gunner = Some (e', true) /\ Enemy.hp e' = 3 /\
             Rect.center (Enemy.rect e') = (450, 45).
Proof.
  eexists. split; [vm_compute; reflexivity|].
  match goal with
  | |- Enemy.hp ?e' = _ /\ _ =>
      destruct (enemy_update_spec gunner e' true) as (_ & _ & _ & _ & _ & _);
        [vm_compute; reflexivity|]
  end.
  split; vm_compute; reflexivity.
Defined.

(** ** Explosion.update: the life of an explosion *)

Lemma age_nil n : age n [] = Some [].
Proof. induction n; simpl; auto. Qed.

Lemma age_one n : forall x,
  1 <= Explosion.lifetime x ->
  age n [x] =
  Some (if Z.of_nat n <? Explosion.lifetime x
        then [Explosion.mk (Explosion.pos x) (Explosion.radius x) (Explosion.color x)
                (Explosion.lifetime x - Z.of_nat n) (Explosion.rect x)]
        else []).
Proof.
  induction n as [|n IH]; intros x Hx.
  - cbn [age]. destruct (Z.ltb_spec (Z.of_nat 0) (Explosion.lifetime x)); [|lia].
    destruct x as [p r c l b]. cbn. rewrite Z.sub_0_r. reflexivity.
  - cbn [age update_group]. unfold Explosion.update.
    destruct (Z.leb_spec (Explosion.lifetime x - 1) 0); cbn [negb].
    + rewrite age_nil.
      destruct (Z.ltb_spec (Z.of_nat (S n)) (Explosion.lifetime x)); [lia|reflexivity].
    + rewrite IH by (cbn; lia).
      cbn [Explosion.pos Explosion.radius Explosion.color Explosion.lifetime
           Explosion.rect].
      destruct (Z.ltb_spec (Z.of_nat n) (Explosion.lifetime x - 1)),
               (Z.ltb_spec (Z.of_nat (S n)) (Explosion.lifetime x));
        try lia; [|reflexivity].
      do 3 f_equal. lia.
Qed.

(** X9: an explosion of lifetime [l >= 1] is still in its group, with
    lifetime [l - n], after [n < l] updates of the group, and has left it
    after [l] updates or more; so an explosion just made (lifetime 18) is
    shown for 17 more frames and removed by its 18th update. *)
Theorem explosion_lifespan (x : Explosion.t) (n : nat) :
  1 <= Explosion.lifetime x ->
  (Z.of_nat n < Explosion.lifetime x ->
   age n [x] = Some [Explosion.mk (Explosion.pos x) (Explosion.radius x)
                       (Explosion.color x) (Explosion.lifetime x - Z.of_nat n)
                       (Explosion.rect x)]) /\
  (Explosion.lifetime x <= Z.of_nat n -> age n [x] = Some []).
Proof.
  intros Hx. rewrite (age_one n x Hx). split; intros H.
  - destruct (Z.ltb_spec (Z.of_nat n) (Explosion.lifetime x)); [reflexivity|lia].
  - destruct (Z.ltb_spec (Z.of_nat n) (Explosion.lifetime x)); [lia|reflexivity].
Qed.

Lemma explosion_lifespan_witness :
  age 17 [Explosion.init (450, 63) 36 NEON_YELLOW]
  = Some [Explosion.mk (450, 63) 36 NEON_YELLOW 1 (Rect.mk 414 27 72 72)] /\
  age 18 [Explosion.init (450, 63) 36 NEON_YELLOW] = Some [].
Proof.
  split.
  - apply (proj1 (explosion_lifespan (Explosion.init (450, 63) 36 NEON_YELLOW) 17
                    ltac:(vm_compute; discriminate))).
    vm_compute. reflexivity.
  - apply (proj2 (explosion_lifespan (Explosion.init (450, 63) 36 NEON_YELLOW) 18
                    ltac:(vm_compute; discriminate))).
    vm_compute. discriminate.
Defined.

Lemma range_check (f : Z -> bool) (lo : Z) (n : nat) :
  forallb f (map (fun k => lo + Z.of_nat k) (seq 0 n)) = true ->
  forall z, lo <= z < lo + Z.of_nat n -> f z = true.
Proof.
  intros H z Hz. rewrite forallb_forall in H. apply H.
  apply in_map_iff. exists (Z.to_nat (z - lo)). split; [lia|].
  apply in_seq. lia.
Qed.

(** X10: for every lifetime from 18 down to 1 the redraw of an explosion
    passes to [pygame.draw.circle] an alpha between 14 and 255 (a valid
    colour component), and, for a radius up to 64, a circle radius between
    0 and the explosion's radius; a fresh explosion (lifetime 18) is drawn
    opaque and at full radius. *)
Theorem explosion_drawing (t : Z) :
  1 <= t <= 18 ->
  (exists a, explosion_alpha t = Some a /\ 14 <= a <= 255 /\ (t = 18 -> a = 255)) /\
  (forall radius, 0 <= radius <= 64 ->
     exists c, explosion_circle radius t = Some c /\ 0 <= c <= radius /\
               (t = 18 -> c = radius)).
Proof.
  intros Ht. split.
  - pose (f := fun t => match explosion_alpha t with
                        | Some a => (14 <=? a) && (a <=? 255)
                                    && implb (t =? 18) (a =? 255)
                        | None => false
                        end).
    assert (H : f t = true).
    { apply (range_check f 1 18); [vm_compute; reflexivity|lia]. }
    unfold f in H. destruct (explosion_alpha t) as [a|]; [|discriminate].
    exists a. split; [reflexivity|].
    apply andb_true_iff in H as [H H3]. apply andb_true_iff in H as [H1 H2].
    split; [lia|]. intros ->. cbn in H3. apply Z.eqb_eq in H3. exact H3.
  - intros radius Hr.
    pose (f := fun t r => match explosion_circle r t with
                          | Some c => (0 <=? c) && (c <=? r)
                                      && implb (t =? 18) (c =? r)
                          | None => false
                          end).
    assert (H : (fun t => forallb (f t) (map (fun k => 0 + Z.of_nat k) (seq 0 65))) t
                = true).
    { apply (range_check
               (fun t => forallb (f t) (map (fun k => 0 + Z.of_nat k) (seq 0 65))) 1 18);
        [vm_compute; reflexivity|lia]. }
    cbv beta in H.
    assert (H' : f t radius = true) by (apply (range_check (f t) 0 65 H); lia).
    unfold f in H'. destruct (explosion_circle radius t) as [c|]; [|discriminate].
    exists c. split; [reflexivity|].
    apply andb_true_iff in H' as [H' H3]. apply andb_true_iff in H' as [H1 H2].
    split; [lia|]. intros ->. cbn in H3. apply Z.eqb_eq in H3. exact H3.
Qed.

Lemma explosion_drawing_witness :
  explosion_alpha 9 = Some 127 /\ explosion_circle 36 9 = Some 21.
Proof.
  destruct (explosion_drawing 9 ltac:(lia)) as [(a & Ha & _) Hc].
  destruct (Hc 36 ltac:(lia)) as (c & Hc' & _).
  split; vm_compute; reflexivity.
Defined.

(** ** The shapes that a tick keeps *)

Lemma update_group_alive {A} (upd : A -> Updated A) l : forall l',
  update_group upd l = Some l' ->
  Forall (fun a' => exists a, a ∈ l /\ upd a = Some (a', true)) l'.
Proof.
  induction l as [|a l IH]; intros l' H; simpl in H.
  - injection H as <-. constructor.
  - destruct (upd a) as [[a' alive]|] eqn:Ea; [|discriminate].
    destruct (update_group upd l) as [r|]; [|discriminate].
    injection H as <-.
    assert (Hr : Forall (fun a' => exists a0, a0 ∈ a :: l /\ upd a0 = Some (a', true)) r).
    { eapply Forall_impl; [apply IH; reflexivity|]. cbn.
      intros x (a0 & Hin & Hu). exists a0. split; [right|]; assumption. }
    destruct alive; [|exact Hr].
    constructor; [|exact Hr]. exists a. split; [left|assumption].
Qed.

Lemma update_group_keeps {A} (upd : A -> Updated A) (P Q : A -> Prop) l l' :
  update_group upd l = Some l' ->
  (forall a a', P a -> upd a = Some (a', true) -> Q a') ->
  Forall P l -> Forall Q l'.
Proof.
  intros H Hstep HP. apply update_group_alive in H.
  eapply Forall_impl; [exact H|]. cbn. intros a' (a & Hin & Hu).
  rewrite Forall_forall in HP. eauto.
Qed.

Lemma shots_ok pf s : Forall projectile_ok (snd (Player.fire pf s)).
Proof.
  assert (Hshot : forall b p v el, projectile_ok (Projectile.init b p v el)).
  { intros b p v el. destruct b; rewrite ?projectile_init_branches;
      unfold Projectile.init; split;
      cbn [Projectile.radius Projectile.color Projectile.element Projectile.rect
           Rect.centered Rect.width Rect.height]; auto. }
  unfold Player.fire. destruct (0 <? Player.fire_cooldown s); [constructor|].
  destruct (Rect.center (Player.rect s)) as [cx cy].
  destruct (Player.element s); cbn [snd map Player.spread];
    repeat constructor; apply Hshot.
Qed.

Lemma fire_player_ok pf s : player_ok s -> player_ok (fst (Player.fire pf s)).
Proof.
  intros [Hsp Hw Hh Hx Hy Hc Hs]. unfold Player.fire.
  destruct (0 <? Player.fire_cooldown s); [split; assumption|].
  destruct (Rect.center (Player.rect s)) as [cx cy].
  split; cbn; try assumption. lia.
Qed.

Lemma handle_event_tidy pf g ev : tidy g -> tidy (handle_event pf g ev).
Proof.
  intros [Hp He Hs Hx Ht].
  destruct ev as [|k|]; [| destruct k |]; cbn [handle_event];
    try (split; assumption);
    try (split; cbn; try assumption; destruct Hp; split; assumption).
  pose proof (shots_ok pf (player g)) as Hshots.
  pose proof (fire_player_ok pf (player g) Hp) as Hp'.
  destruct (Player.fire pf (player g)) as [p' shots]. cbn [fst snd] in *.
  split; cbn; try assumption. apply Forall_app. split; assumption.
Qed.

Lemma handle_events_tidy pf evs : forall g,
  tidy g -> tidy (fold_left (handle_event pf) evs g).
Proof.
  induction evs as [|ev evs IH]; intros g Hg; simpl; [exact Hg|].
  apply IH. apply handle_event_tidy. exact Hg.
Qed.

Lemma spawned_ok x u dir timer : enemy_ok (spawned x u dir timer).
Proof.
  unfold spawned. split; cbn [Enemy.hp Enemy.kind Enemy.speed Enemy.color Enemy.rect
                              Rect.centered Rect.width Rect.height]; auto.
  destruct (kind_at _); cbn; lia.
Qed.

Lemma spawn_phase_tidy g t g' t' :
  spawn_phase g t = Done g' t' -> tidy g -> tidy g' /\ 1 <= spawn_timer g'.
Proof.
  intros H [Hp He Hs Hx Ht].
  destruct (Z_le_gt_dec (spawn_timer g - 1) 0) as [Hdue|Hwait].
  - apply (spawn_due_Done g Hdue) in H
      as (n & x & u & v & dir & timer & _ & Hn & _ & _ & _ & _ & _ & ->).
    split; [|cbn; lia]. split; cbn; try assumption; [|lia].
    apply Forall_app. split; [assumption|].
    constructor; [apply spawned_ok|constructor].
  - rewrite (spawn_wait g) in H by lia. injection H as <- <-.
    split; [|cbn; lia]. split; cbn; try assumption; [|lia].
    rewrite app_nil_r. assumption.
Qed.

Lemma player_update_ok ks s : player_ok s -> player_ok (Player.update ks s).
Proof.
  intros [Hsp Hw Hh Hx Hy Hc Hs]. unfold Player.update.
  split; cbn [Player.speed Player.rect Player.fire_cooldown Player.score
              Rect.x Rect.y Rect.width Rect.height]; try assumption.
  - rewrite Hw. unfold WIDTH in *. lia.
  - rewrite Hh. unfold HEIGHT in *. lia.
  - destruct (Z.ltb_spec 0 (Player.fire_cooldown s)); lia.
Qed.

Lemma enemy_update_ok e e' alive :
  enemy_ok e -> Enemy.update e = Some (e', alive) -> enemy_ok e'.
Proof.
  intros [Hhp Hs Hc Hb] H. unfold Enemy.update in H.
  destruct (py_int (Vector2.x _)) as [cx|]; [|discriminate].
  destruct (py_int (Vector2.y _)) as [cy|]; [|discriminate].
  injection H as <- _. split; cbn; assumption.
Qed.

Lemma projectile_update_ok s s' :
  projectile_ok s -> Projectile.update s = Some (s', true) ->
  projectile_ok s' /\ Projectile.off_screen (Projectile.rect s') = false.
Proof.
  intros [Hr Hc Hb] H. unfold Projectile.update in H.
  destruct (py_int (Vector2.x _)) as [cx|]; [|discriminate].
  destruct (py_int (Vector2.y _)) as [cy|]; [|discriminate].
  injection H as <- Hoff. apply negb_true_iff in Hoff.
  split; [split; cbn; assumption|exact Hoff].
Qed.

Lemma explosion_update_ok x x' :
  explosion_ok x -> Explosion.update x = Some (x', true) -> explosion_ok x'.
Proof.
  unfold explosion_ok, Explosion.update. intros Hx H.
  injection H as <- Hl. cbn. apply negb_true_iff in Hl.
  destruct (Z.leb_spec (Explosion.lifetime x - 1) 0); [discriminate|lia].
Qed.

(** After the updates the projectiles of the group are on the screen and no
    enemy is more than 20 pixels below it. *)
Lemma update_phase_tidy ks g g' :
  update_phase ks g = Some g' -> tidy g ->
  tidy g' /\
  Forall (fun s => Projectile.off_screen (Projectile.rect s) = false) (projectiles g') /\
  Forall (fun e => Rect.top (Enemy.rect e) <= HEIGHT + 20) (enemies g') /\
  spawn_timer g' = spawn_timer g.
Proof.
  intros H [Hp He Hs Hx Ht].
  apply update_phase_Some in H
    as (es & ps & bs & ps' & bs' & xs & Ees & Eps & _ & Eps' & _ & Exs & ->).
  assert (Hps : Forall projectile_ok ps).
  { eapply update_group_keeps; [exact Eps| |exact Hs].
    intros a a' Ha Hu. apply (projectile_update_ok a a' Ha Hu). }
  split; [split; cbn|split; [|split; [|reflexivity]]]; cbn.
  - apply player_update_ok. exact Hp.
  - eapply update_group_keeps; [exact Ees| |exact He].
    intros a a' Ha Hu. eapply enemy_update_ok; eauto.
  - eapply update_group_keeps; [exact Eps'| |exact Hps].
    intros a a' Ha Hu. apply (projectile_update_ok a a' Ha Hu).
  - eapply update_group_keeps; [exact Exs| |exact Hx].
    intros a a' Ha Hu. eapply explosion_update_ok; eauto.
  - exact Ht.
  - eapply update_group_keeps; [exact Eps'| |exact Hps].
    intros a a' Ha Hu. apply (projectile_update_ok a a' Ha Hu).
  - eapply update_group_keeps with (P := fun _ => True);
      [exact Ees| |apply Forall_forall; auto].
    intros a a' _ Hu. unfold Enemy.update in Hu.
    destruct (py_int (Vector2.x _)) as [cx|]; [|discriminate].
    destruct (py_int (Vector2.y _)) as [cy|]; [|discriminate].
    injection Hu as <- Hoff. cbn [Enemy.rect]. apply negb_true_iff in Hoff.
    apply Z.ltb_ge in Hoff. exact Hoff.
Qed.

Lemma shoot_shape target e t e' bs t' :
  shoot target e t = Done (e', bs) t' ->
  e' = e \/ exists n, e' = Enemy.set_shoot_timer e n.
Proof.
  intros H. apply shoot_Done in H
    as [(_ & -> & _)|[(_ & _ & -> & _)|(_ & _ & n & b & _ & _ & _ & -> & _)]]; eauto.
Qed.

Lemma shoot_phase_tidy g t g' t' :
  shoot_phase g t = Done g' t' -> tidy g ->
  tidy g' /\
  (Forall (fun e => Rect.top (Enemy.rect e) <= HEIGHT + 20) (enemies g) ->
   Forall (fun e => Rect.top (Enemy.rect e) <= HEIGHT + 20) (enemies g')) /\
  projectiles g' = projectiles g /\ spawn_timer g' = spawn_timer g.
Proof.
  unfold shoot_phase. intros H [Hp He Hs Hx Ht].
  apply bind_Done in H as (rs & t1 & Hrs & H).
  apply ret_Done in H as [<- <-]. cbn.
  apply mapM_Done in Hrs.
  assert (Hkeep : forall P : Enemy.t -> Prop,
            (forall e n, P e -> P (Enemy.set_shoot_timer e n)) ->
            Forall P (enemies g) -> Forall P (map fst rs)).
  { intros P HP HF. clear - Hrs HP HF.
    induction Hrs as [|e [e' bs] es rs' (t2 & t3 & Hsh) _ IH]; [constructor|].
    inversion HF; subst. cbn [map fst]. constructor; [|apply IH; assumption].
    apply shoot_shape in Hsh as [->|(n & ->)]; auto. }
  split; [split; cbn; try assumption|split; [|auto]].
  - apply Hkeep; [|exact He]. intros e n [H1 H2 H3 H4]. split; assumption.
  - apply Hkeep. intros e n H. exact H.
Qed.

Lemma hit_one_tidy proj c :
  Forall enemy_ok (c_enemies c) -> Forall explosion_ok (c_explosions c) ->
  0 <= c_score c /\ c_score c mod 5 = 0 ->
  Forall enemy_ok (c_enemies (fst (hit_one proj c))) /\
  Forall explosion_ok (c_explosions (fst (hit_one proj c))) /\
  (0 <= c_score (fst (hit_one proj c)) /\ c_score (fst (hit_one proj c)) mod 5 = 0) /\
  (forall P : Enemy.t -> Prop,
     (forall e h, P e -> P (Enemy.set_hp e h)) ->
     Forall P (c_enemies c) -> Forall P (c_enemies (fst (hit_one proj c)))).
Proof.
  intros He Hx [Hs0 Hs5]. unfold hit_one.
  destruct (spritecollideany _ _ _) as [[i hit]|] eqn:Ef; [|cbn; auto].
  apply spritecollideany_Some in Ef as [Hi _].
  assert (Hhit : enemy_ok hit).
  { rewrite Forall_lookup in He. exact (He i hit Hi). }
  assert (Hboom : forall p r c0, explosion_ok (Explosion.init p r c0)).
  { intros. unfold explosion_ok, Explosion.init. cbn. lia. }
  cbn [Enemy.hp Enemy.set_hp].
  destruct (Z.leb_spec (Enemy.hp hit - 1) 0); cbn [fst c_enemies c_explosions c_score].
  - split; [apply Forall_delete; exact He|].
    split; [apply Forall_app; split; [exact Hx|constructor; [apply Hboom|constructor]]|].
    split.
    + split; [lia|]. rewrite <- Z.add_mod_idemp_l by lia. rewrite Hs5. reflexivity.
    + intros P HP HF. apply Forall_delete. exact HF.
  - split.
    { apply Forall_insert; [exact He|]. destruct Hhit as [Hhp H2 H3 H4].
      split; cbn; try assumption. lia. }
    split; [apply Forall_app; split; [exact Hx|constructor; [apply Hboom|constructor]]|].
    split; [auto|].
    intros P HP HF. apply Forall_insert; [exact HF|]. apply HP.
    rewrite Forall_lookup in HF. exact (HF i hit Hi).
Qed.

Lemma hit_loop_tidy projs : forall c,
  Forall enemy_ok (c_enemies c) -> Forall explosion_ok (c_explosions c) ->
  0 <= c_score c /\ c_score c mod 5 = 0 ->
  Forall enemy_ok (c_enemies (snd (hit_loop projs c))) /\
  Forall explosion_ok (c_explosions (snd (hit_loop projs c))) /\
  (0 <= c_score (snd (hit_loop projs c)) /\ c_score (snd (hit_loop projs c)) mod 5 = 0) /\
  (forall P : Enemy.t -> Prop,
     (forall e h, P e -> P (Enemy.set_hp e h)) ->
     Forall P (c_enemies c) -> Forall P (c_enemies (snd (hit_loop projs c)))).
Proof.
  induction projs as [|proj rest IH]; intros c He Hx Hs.
  - cbn. auto.
  - rewrite hit_loop_cons. cbn [snd].
    destruct (hit_one_tidy proj c He Hx Hs) as (He1 & Hx1 & Hs1 & HP1).
    destruct (IH _ He1 Hx1 Hs1) as (He2 & Hx2 & Hs2 & HP2).
    split; [exact He2|]. split; [exact Hx2|]. split; [exact Hs2|].
    intros P HP HF. apply HP2; [exact HP|]. apply HP1; assumption.
Qed.

Lemma combat_tidy g :
  tidy g ->
  tidy (collide_phase (bomb_phase (hit_phase g))) /\
  (forall Q : Projectile.t -> Prop,
     Forall Q (projectiles g) ->
     Forall Q (projectiles (collide_phase (bomb_phase (hit_phase g))))) /\
  (Forall (fun e => Rect.top (Enemy.rect e) <= HEIGHT + 20) (enemies g) ->
   Forall (fun e => Rect.top (Enemy.rect e) <= HEIGHT + 20)
          (enemies (collide_phase (bomb_phase (hit_phase g))))) /\
  spawn_timer (collide_phase (bomb_phase (hit_phase g))) = spawn_timer g.
Proof.
  intros [Hp He Hs Hx Ht].
  destruct Hp as [Hsp Hw Hh Hpx Hpy Hc Hsc].
  destruct (hit_loop_tidy (projectiles g) (combat_of g) He Hx Hsc)
    as (He1 & Hx1 & Hs1 & HP1).
  destruct (hit_loop_once (projectiles g) (combat_of g)) as [Hsub _].
  assert (Hboom : forall p r c0, explosion_ok (Explosion.init p r c0)).
  { intros. unfold explosion_ok, Explosion.init. cbn. lia. }
  set (h := hit_phase g).
  assert (Hh1 : tidy h /\
                (forall Q : Projectile.t -> Prop,
                   Forall Q (projectiles g) -> Forall Q (projectiles h)) /\
                (forall P : Enemy.t -> Prop,
                   (forall e n, P e -> P (Enemy.set_hp e n)) ->
                   Forall P (enemies g) -> Forall P (enemies h)) /\
                spawn_timer h = spawn_timer g).
  { unfold h. rewrite hit_phase_fields. cbn.
    split; [split; cbn; try assumption|].
    - split; cbn; assumption.
    - eapply Forall_sublist_of; eassumption.
    - split; [|split; [exact HP1|reflexivity]].
      intros Q HQ. eapply Forall_sublist_of; eassumption. }
  destruct Hh1 as ([Hp2 He2 Hs2 Hx2 Ht2] & HQ2 & HP2 & Htm2).
  set (b := bomb_phase h).
  assert (Hb : tidy b /\ projectiles b = projectiles h /\ enemies b = enemies h /\
               spawn_timer b = spawn_timer h).
  { unfold b, bomb_phase.
    destruct (spritecollideany _ _ _) as [[i0 b0]|];
      [|split; [split; assumption|auto]].
    destruct (list_find _ _) as [[i bb]|]; [|split; [split; assumption|auto]].
    cbn. split; [|auto]. split; cbn; try assumption.
    - destruct Hp2. split; cbn; assumption.
    - apply Forall_app. split; [assumption|]. constructor; [apply Hboom|constructor]. }
  destruct Hb as ([Hp3 He3 Hs3 Hx3 Ht3] & Eps3 & Ees3 & Etm3).
  assert (Hc3 : tidy (collide_phase b) /\ projectiles (collide_phase b) = projectiles b /\
                enemies (collide_phase b) `sublist_of` enemies b /\
                spawn_timer (collide_phase b) = spawn_timer b).
  { unfold collide_phase.
    destruct (spritecollideany _ _ _) as [[i e]|];
      [|split; [split; assumption|auto]].
    cbn. split; [|split; [reflexivity|split; [apply sublist_delete|reflexivity]]].
    split; cbn; try assumption.
    - destruct Hp3. split; cbn; assumption.
    - apply Forall_delete. assumption.
    - apply Forall_app. split; [assumption|]. constructor; [apply Hboom|constructor]. }
  destruct Hc3 as (Htidy & Eps4 & Esub4 & Etm4).
  split; [exact Htidy|]. split; [|split].
  - intros Q HQ. rewrite Eps4, Eps3. apply HQ2. exact HQ.
  - intros HF. eapply Forall_sublist_of; [exact Esub4|]. rewrite Ees3.
    apply HP2; [|exact HF]. intros e n H. exact H.
  - congruence.
Qed.

Lemma tick_tidy pf inp g t g' t' :
  tick pf inp g t = Done g' t' -> tidy g ->
  tidy g' /\ 1 <= spawn_timer g' /\
  Forall (fun s => Projectile.off_screen (Projectile.rect s) = false) (projectiles g') /\
  Forall (fun e => Rect.top (Enemy.rect e) <= HEIGHT + 20) (enemies g').
Proof.
  intros H Hg. apply tick_phases in H as (g2 & g3 & g4 & t1 & H2 & H3 & H4 & ->).
  apply (handle_events_tidy pf (events inp)) in Hg.
  apply spawn_phase_tidy in H2 as [Hg2 Htm2]; [|exact Hg].
  apply update_phase_tidy in H3 as (Hg3 & Hon3 & Htop3 & Htm3); [|exact Hg2].
  apply shoot_phase_tidy in H4 as (Hg4 & Htop4 & Eps4 & Htm4); [|exact Hg3].
  destruct (combat_tidy g4 Hg4) as (Hg5 & HQ5 & Htop5 & Htm5).
  split; [exact Hg5|]. split; [lia|]. split.
  - apply HQ5. rewrite Eps4. exact Hon3.
  - apply Htop5. apply Htop4. exact Htop3.
Qed.

Lemma initial_tidy : tidy initial.
Proof.
  split; try constructor; cbn; try lia; unfold WIDTH, HEIGHT; cbn; try lia.
  all: try (split; [lia|reflexivity]).
  all: vm_compute; split; discriminate.
Qed.

Lemma reachable_tidy pf g : reachable pf g -> tidy g.
Proof.
  induction 1 as [|g g' _ IH [_ (inp & t & t' & Ht)]]; [apply initial_tidy|].
  apply (tick_tidy pf inp g t g' t' Ht IH).
Qed.

Lemma after_kill_reachable : reachable desktop after_kill.
Proof.
  eapply reach_step; [exact before_kill_reachable|].
  split; [vm_compute; reflexivity|].
  exists quiet, [], []. vm_compute. reflexivity.
Qed.

Lemma reachable_lives_le pf g : reachable pf g -> Player.lives (player g) <= 3.
Proof.
  induction 1 as [|g g' _ IH [_ (inp & t & t' & Ht)]]; [cbn; lia|].
  apply tick_lives in Ht. lia.
Qed.

Lemma reachable_settled pf g :
  reachable pf g ->
  Forall (fun s => Projectile.off_screen (Projectile.rect s) = false) (projectiles g) /\
  Forall (fun e => Rect.top (Enemy.rect e) <= HEIGHT + 20) (enemies g).
Proof.
  intros [|g0 g' Hr [_ (inp & t & t' & Ht)]]; [split; constructor|].
  apply tick_tidy in Ht; [tauto|]. eapply reachable_tidy; eauto.
Qed.

(** ** Invariants of the reachable states *)

(** X11: in every reachable state the player's box is the 160 x 102 sprite
    and lies inside the field, x from 10 to 730 and y from 60 to 488, and
    the player's speed is 4. *)
Theorem player_in_field (pf : Platform) (g : Game) :
  reachable pf g ->
  Rect.width (Player.rect (player g)) = 160 /\
  Rect.height (Player.rect (player g)) = 102 /\
  10 <= Rect.x (Player.rect (player g)) <= 730 /\
  60 <= Rect.y (Player.rect (player g)) <= 488 /\
  Player.speed (player g) = 4.
Proof.
  intros Hr. destruct (reachable_tidy pf g Hr) as [[Hsp Hw Hh Hx Hy _ _] _ _ _ _].
  unfold WIDTH, HEIGHT in *. repeat split; try assumption; lia.
Qed.

Lemma player_in_field_witness :
  10 <= Rect.x (Player.rect (player last_life)) <= 730 /\
  60 <= Rect.y (Player.rect (player last_life)) <= 488.
Proof.
  destruct (player_in_field desktop last_life) as (_ & _ & Hx & Hy & _).
  - apply (run_reachable desktop ambush_inputs initial ambush_tape last_life []).
    + constructor.
    + vm_compute. reflexivity.
  - split; assumption.
Defined.

(** X12: in every reachable state the fire cooldown is between 0 and 14. *)
Theorem cooldown_bounded (pf : Platform) (g : Game) :
  reachable pf g -> 0 <= Player.fire_cooldown (player g) <= 14.
Proof.
  intros Hr. destruct (reachable_tidy pf g Hr) as [[_ _ _ _ _ Hc _] _ _ _ _]. exact Hc.
Qed.

Lemma cooldown_bounded_witness :
  0 <= Player.fire_cooldown (player before_kill) <= 14.
Proof. exact (cooldown_bounded desktop before_kill before_kill_reachable). Defined.

(** X13: in every reachable state the score is a non-negative multiple of
    5. *)
Theorem score_in_fives (pf : Platform) (g : Game) :
  reachable pf g ->
  0 <= Player.score (player g) /\ Player.score (player g) mod 5 = 0.
Proof.
  intros Hr. destruct (reachable_tidy pf g Hr) as [[_ _ _ _ _ _ Hs] _ _ _ _]. exact Hs.
Qed.

Lemma score_in_fives_witness :
  0 <= Player.score (player after_kill) /\ Player.score (player after_kill) mod 5 = 0.
Proof. exact (score_in_fives desktop after_kill after_kill_reachable). Defined.

(** X14: in every reachable state every enemy has an hp from 1 up to the hp
    of its kind (so at most 3), the speed and the colour of its kind, and a
    40 x 28 box whose top is at most 20 pixels below the bottom edge. *)
Theorem enemies_sound (pf : Platform) (g : Game) :
  reachable pf g ->
  Forall (fun e =>
            1 <= Enemy.hp e <= Enemy.kind_hp (Enemy.kind e) /\ Enemy.hp e <= 3 /\
            Enemy.speed e = Enemy.kind_speed (Enemy.kind e) /\
            Enemy.color e = Enemy.kind_color (Enemy.kind e) /\
            Rect.width (Enemy.rect e) = 40 /\ Rect.height (Enemy.rect e) = 28 /\
            Rect.top (Enemy.rect e) <= HEIGHT + 20)
         (enemies g).
Proof.
  intros Hr. destruct (reachable_tidy pf g Hr) as [_ He _ _ _].
  destruct (reachable_settled pf g Hr) as [_ Htop].
  rewrite Forall_forall in *. intros e Hin.
  destruct (He e Hin) as [Hhp Hs Hc [Hw Hh]]. specialize (Htop e Hin).
  repeat split; try assumption; try lia.
  destruct (Enemy.kind e); cbn in *; lia.
Qed.

Lemma enemies_sound_witness :
  Forall (fun e => 1 <= Enemy.hp e <= 3) (enemies last_life).
Proof.
  eapply Forall_impl.
  - apply (enemies_sound desktop last_life).
    apply (run_reachable desktop ambush_inputs initial ambush_tape last_life []).
    + constructor.
    + vm_compute. reflexivity.
  - cbn. intros e H. lia.
Defined.

(** X15: in every reachable state every explosion has a lifetime from 1 to
    18: the range over which its redraw is drawn with a valid alpha. *)
Theorem explosions_fresh (pf : Platform) (g : Game) :
  reachable pf g ->
  Forall (fun x => 1 <= Explosion.lifetime x <= 18) (explosions g).
Proof.
  intros Hr. destruct (reachable_tidy pf g Hr) as [_ _ _ Hx _]. exact Hx.
Qed.

Lemma explosions_fresh_witness :
  Forall (fun x => 1 <= Explosion.lifetime x <= 18) (explosions after_kill).
Proof. exact (explosions_fresh desktop after_kill after_kill_reachable). Defined.

(** X16: in every reachable state the spawn countdown is between 0 and 42,
    and after any tick it is at least 1: the countdown is 0 only before the
    first frame, whose tick therefore spawns an enemy. *)
Theorem spawn_timer_bounded (pf : Platform) (g : Game) :
  reachable pf g ->
  0 <= spawn_timer g <= 42 /\
  (forall g', step pf g g' -> 1 <= spawn_timer g' <= 42) /\
  (spawn_timer g = 0 -> g = initial).
Proof.
  intros Hr. destruct (reachable_tidy pf g Hr) as [_ _ _ _ Ht].
  split; [exact Ht|]. split.
  - intros g' [_ (inp & t & t' & Htick)].
    destruct (tick_tidy pf inp g t g' t' Htick (reachable_tidy pf g Hr))
      as ([_ _ _ _ Ht'] & H1 & _). lia.
  - intros H0. destruct Hr as [|g0 g' Hr0 [_ (inp & t & t' & Htick)]]; [reflexivity|].
    destruct (tick_tidy pf inp g0 t g' t' Htick (reachable_tidy pf g0 Hr0))
      as (_ & H1 & _). lia.
Qed.

Lemma spawn_timer_bounded_witness : 0 <= spawn_timer before_kill <= 42.
Proof. exact (proj1 (spawn_timer_bounded desktop before_kill before_kill_reachable)). Defined.

(** X17: in every reachable state every projectile has the radius and the
    colour of its element, a square box of side twice the radius, and a
    box that is not entirely off the screen: the projectiles that leave the
    screen do not outlive the frame in which they leave. *)
Theorem projectiles_on_screen (pf : Platform) (g : Game) :
  reachable pf g ->
  Forall (fun s =>
            Projectile.radius s = Projectile.fallback_radius (Projectile.element s) /\
            Projectile.color s = Projectile.element_color (Projectile.element s) /\
            Rect.width (Projectile.rect s) = Projectile.radius s * 2 /\
            Rect.height (Projectile.rect s) = Projectile.radius s * 2 /\
            0 <= Rect.bottom (Projectile.rect s) /\ Rect.top (Projectile.rect s) <= HEIGHT /\
            Rect.left (Projectile.rect s) <= WIDTH /\ 0 <= Rect.right (Projectile.rect s))
         (projectiles g).
Proof.
  intros Hr. destruct (reachable_tidy pf g Hr) as [_ _ Hs _ _].
  destruct (reachable_settled pf g Hr) as [Hon _].
  rewrite Forall_forall in *. intros s Hin.
  destruct (Hs s Hin) as [Hrad Hcol [Hw Hh]]. specialize (Hon s Hin).
  unfold Projectile.off_screen in Hon.
  rewrite !orb_false_iff, !Z.ltb_ge in Hon.
  repeat split; try assumption; tauto.
Qed.

Lemma projectiles_on_screen_witness :
  Forall (fun s => 0 <= Rect.bottom (Projectile.rect s)) (projectiles before_kill).
Proof.
  eapply Forall_impl.
  - exact (projectiles_on_screen desktop before_kill before_kill_reachable).
  - cbn. intros s H. tauto.
Defined.

(** ** The update step of a tick *)

(** X18: the update step of a tick updates the player and the enemies once
    but the projectiles and the bombs twice, as they belong both to
    [all_sprites] and to a group of their own whose [update] the loop also
    calls: a projectile or bomb that is still in its group afterwards has
    moved by twice its velocity, an enemy by its direction times its
    speed. *)
Theorem update_moves_twice (ks : Keys) (g g' : Game) :
  update_phase ks g = Some g' ->
  player g' = Player.update ks (player g) /\
  Forall (fun s' => exists s, s ∈ projectiles g /\
                      Projectile.vel s' = Projectile.vel s /\
                      Projectile.pos s' =
                        Vector2.add (Vector2.add (Projectile.pos s) (Projectile.vel s))
                                    (Projectile.vel s))
         (projectiles g') /\
  Forall (fun b' => exists b, b ∈ bombs g /\
                      Bomb.vel b' = Bomb.vel b /\
                      Bomb.pos b' =
                        Vector2.add (Vector2.add (Bomb.pos b) (Bomb.vel b)) (Bomb.vel b))
         (bombs g') /\
  Forall (fun e' => exists e, e ∈ enemies g /\
                      Enemy.pos e' =
                        Vector2.add (Enemy.pos e)
                                    (Vector2.scale (Enemy.direction e) (Enemy.speed e)))
         (enemies g') /\
  (length (projectiles g') <= length (projectiles g))%nat /\
  (length (bombs g') <= length (bombs g))%nat /\
  (length (enemies g') <= length (enemies g))%nat.
Proof.
  intros H. apply update_phase_Some in H
    as (es & ps & bs & ps' & bs' & xs & Ees & Eps & Ebs & Eps' & Ebs' & _ & ->).
  cbn [player projectiles bombs enemies].
  assert (Hlen : forall A (upd : A -> Updated A) l l',
            update_group upd l = Some l' -> (length l' <= length l)%nat).
  { intros A upd l. induction l as [|a l IH]; intros l' Hl; simpl in Hl.
    - injection Hl as <-. reflexivity.
    - destruct (upd a) as [[a' al]|]; [|discriminate].
      destruct (update_group upd l) as [r|]; [|discriminate].
      injection Hl as <-. specialize (IH r eq_refl). destruct al; simpl; lia. }
  split; [reflexivity|]. split; [|split; [|split; [|split; [|split]]]].
  - pose proof (update_group_alive _ _ _ Eps) as H1.
    pose proof (update_group_alive _ _ _ Eps') as H2.
    eapply Forall_impl; [exact H2|]. cbn. intros s' (s1 & Hin1 & Hu1).
    rewrite Forall_forall in H1. destruct (H1 s1 Hin1) as (s & Hin & Hu).
    exists s. split; [exact Hin|].
    unfold Projectile.update in Hu, Hu1.
    destruct (py_int (Vector2.x (Vector2.add (Projectile.pos s) _))); [|discriminate].
    destruct (py_int (Vector2.y (Vector2.add (Projectile.pos s) _))); [|discriminate].
    injection Hu as <- _. cbn [Projectile.pos Projectile.vel] in Hu1.
    destruct (py_int (Vector2.x _)); [|discriminate].
    destruct (py_int (Vector2.y _)); [|discriminate].
    injection Hu1 as <- _. split; reflexivity.
  - pose proof (update_group_alive _ _ _ Ebs) as H1.
    pose proof (update_group_alive _ _ _ Ebs') as H2.
    eapply Forall_impl; [exact H2|]. cbn. intros b' (b1 & Hin1 & Hu1).
    rewrite Forall_forall in H1. destruct (H1 b1 Hin1) as (b & Hin & Hu).
    exists b. split; [exact Hin|].
    apply bomb_update_vel in Hu as [Hv Hp], Hu1 as [Hv1 Hp1].
    split; congruence.
  - pose proof (update_group_alive _ _ _ Ees) as H1.
    eapply Forall_impl; [exact H1|]. cbn. intros e' (e & Hin & Hu).
    exists e. split; [exact Hin|].
    unfold Enemy.update in Hu.
    destruct (py_int (Vector2.x _)); [|discriminate].
    destruct (py_int (Vector2.y _)); [|discriminate].
    injection Hu as <- _. reflexivity.
  - apply Hlen in Eps, Eps'. lia.
  - apply Hlen in Ebs, Ebs'. lia.
  - apply Hlen in Ees. lia.
Qed.

Lemma update_moves_twice_witness :
  exists g',
    update_phase no_keys before_kill = Some g' /\
    map Projectile.pos (projectiles before_kill) = [Vector2.mk 450%float 46%float] /\
    map Projectile.pos (projectiles g') = [Vector2.mk 450%float 30%float] /\
    map Enemy.pos (enemies g') = [Vector2.mk 450%float 10%float].
Proof.
  eexists. split; [vm_compute; reflexivity|].
  match goal with
  | |- _ /\ map Projectile.pos (projectiles ?g') = _ /\ _ =>
      destruct (update_moves_twice no_keys before_kill g') as (_ & _ & _ & _ & _);
        [vm_compute; reflexivity|]
  end.
  split; [vm_compute; reflexivity|]. split; vm_compute; reflexivity.
Defined.

(** ** Enemy x Player *)

(** X19: when no enemy's box meets the player's box the collision step
    changes nothing.  Otherwise the first such enemy (in group order) is
    removed whatever hp it has left, the player loses exactly one life, one
    explosion of radius 28 and of the enemy's colour is added at the centre
    of the enemy's box, the score is unchanged, and the loop stops when no
    life is left; the other enemies stay, also those that overlap the
    player. *)
Theorem enemy_hits_player (g : Game) :
  (Forall (fun e => Rect.colliderect (Player.rect (player g)) (Enemy.rect e) = false)
          (enemies g) ->
   collide_phase g = g) /\
  (forall (i : nat) (e : Enemy.t),
     enemies g !! i = Some e ->
     Rect.colliderect (Player.rect (player g)) (Enemy.rect e) = true ->
     (forall j e', enemies g !! j = Some e' -> (j < i)%nat ->
                   Rect.colliderect (Player.rect (player g)) (Enemy.rect e') = false) ->
     collide_phase g =
       lose_life g (bombs g) (delete i (enemies g))
                 (Explosion.init (Rect.center (Enemy.rect e)) 28 (Enemy.color e)) /\
     Player.lives (player (collide_phase g)) = Player.lives (player g) - 1 /\
     Player.score (player (collide_phase g)) = Player.score (player g) /\
     S (length (enemies (collide_phase g))) = length (enemies g) /\
     (Player.lives (player g) - 1 <= 0 -> running (collide_phase g) = false)).
Proof.
  split.
  - intros Hnone. unfold collide_phase.
    rewrite (spritecollideany_none _ _ _ Hnone). reflexivity.
  - intros i e Hi Hc Hfirst.
    assert (E : collide_phase g =
                lose_life g (bombs g) (delete i (enemies g))
                  (Explosion.init (Rect.center (Enemy.rect e)) 28 (Enemy.color e))).
    { unfold collide_phase.
      rewrite (spritecollideany_first _ Enemy.rect _ i e Hi Hc Hfirst). reflexivity. }
    rewrite E. unfold lose_life.
    cbn [player enemies running set_lives Player.lives Player.score].
    split; [reflexivity|]. split; [reflexivity|]. split; [reflexivity|]. split.
    + pose proof (lookup_lt_Some _ _ _ Hi) as Hlt.
      rewrite length_delete by eauto. lia.
    + intros Hz. destruct (Z.leb_spec (Player.lives (player g) - 1) 0); [reflexivity|lia].
Qed.

Lemma enemy_hits_player_witness :
  enemies (collide_phase rammed) = [sample_enemy Mid (20, 20) 2] /\
  Player.lives (player (collide_phase rammed)) = 2 /\
  Player.score (player (collide_phase rammed)) = 0.
Proof.
  pose proof (enemy_hits_player rammed) as [_ H].
  destruct (H 1%nat (sample_enemy Hard (450, 500) 3)) as (E & Hl & Hs & _).
  - reflexivity.
  - vm_compute. reflexivity.
  - intros j e' Hj Hlt. destruct j as [|j]; [|lia].
    injection Hj as <-. vm_compute. reflexivity.
  - split; [rewrite E; reflexivity|]. split; [exact Hl|exact Hs].
Defined.

(** ** The HUD *)

Lemma overkill_reachable : reachable desktop overkill.
Proof.
  eapply reach_step.
  - apply (run_reachable desktop ambush_inputs initial ambush_tape last_life []).
    + constructor.
    + vm_compute. reflexivity.
  - split; [vm_compute; reflexivity|].
    exists quiet, [], []. vm_compute. reflexivity.
Qed.

(** X20: the HUD shows one triangle per life and none when the lives are 0
    or less (as after a last frame that took two lives); in every reachable
    state all the corners of the triangles lie on the 900 x 56 HUD surface. *)
Theorem hud_lives (pf : Platform) (g : Game) :
  reachable pf g ->
  length (hud_life_icons (Player.lives (player g))) = Z.to_nat (Player.lives (player g)) /\
  (Player.lives (player g) <= 0 -> hud_life_icons (Player.lives (player g)) = []) /\
  Forall (Forall on_hud) (hud_life_icons (Player.lives (player g))).
Proof.
  intros Hr. pose proof (reachable_lives_le pf g Hr) as Hle.
  unfold hud_life_icons, range.
  split; [rewrite !length_map, length_seq; reflexivity|]. split.
  - intros Hz. replace (Z.to_nat (Player.lives (player g))) with 0%nat by lia.
    reflexivity.
  - apply List.Forall_forall. intros icon Hin.
    apply in_map_iff in Hin as (i & <- & Hi).
    apply in_map_iff in Hi as (k & <- & Hk). apply in_seq in Hk.
    unfold on_hud, WIDTH. repeat constructor; cbn [fst snd]; lia.
Qed.

Lemma hud_lives_witness :
  hud_life_icons (Player.lives (player overkill)) = [] /\
  length (hud_life_icons (Player.lives (player initial))) = 3%nat.
Proof.
  split.
  - apply (hud_lives desktop overkill).
    + exact overkill_reachable.
    + vm_compute. discriminate.
  - apply (hud_lives desktop initial). constructor.
Defined.

(** ** Quitting *)

Lemma handle_event_stop pf g ev :
  handle_event pf (set_running g false) ev = set_running (handle_event pf g ev) false.
Proof.
  destruct ev as [|k|]; [| destruct k |]; cbn [handle_event]; try reflexivity.
  cbn [player set_running]. destruct (Player.fire pf (player g)) as [p' shots].
  reflexivity.
Qed.

Lemma handle_events_stop pf evs : forall g,
  fold_left (handle_event pf) evs (set_running g false)
  = set_running (fold_left (handle_event pf) evs g) false.
Proof.
  induction evs as [|ev evs IH]; intros g; simpl; [reflexivity|].
  rewrite handle_event_stop. apply IH.
Qed.

Lemma spawn_phase_stop g t :
  spawn_phase (set_running g false) t = stopped (spawn_phase g t).
Proof.
  unfold spawn_phase. cbn [spawn_timer set_running].
  destruct (spawn_timer g - 1 <=? 0); [|reflexivity].
  unfold bind. destruct (random.randint 18 42 t) as [n t1| |]; try reflexivity.
  destruct (spawn_enemy t1) as [e t2| |]; reflexivity.
Qed.

Lemma update_phase_stop ks g :
  update_phase ks (set_running g false)
  = option_map (fun g' => set_running g' false) (update_phase ks g).
Proof.
  unfold update_phase. cbn [set_running enemies projectiles bombs explosions].
  destruct (update_group Enemy.update (enemies g)) as [es|]; [|reflexivity].
  destruct (update_group Projectile.update (projectiles g)) as [ps|]; [|reflexivity].
  destruct (update_group Bomb.update (bombs g)) as [bs|]; [|reflexivity].
  cbn.
  destruct (update_group Projectile.update ps) as [ps'|]; [|reflexivity].
  destruct (update_group Bomb.update bs) as [bs'|]; [|reflexivity].
  destruct (update_group Explosion.update (explosions g)) as [xs|]; reflexivity.
Qed.

Lemma shoot_phase_stop g t :
  shoot_phase (set_running g false) t = stopped (shoot_phase g t).
Proof.
  unfold shoot_phase, bind. cbn [set_running player enemies].
  destruct (mapM_ _ _ t) as [rs t1| |]; reflexivity.
Qed.

Lemma combat_stop g :
  collide_phase (bomb_phase (hit_phase (set_running g false)))
  = set_running (collide_phase (bomb_phase (hit_phase g))) false.
Proof.
  assert (Hh : hit_phase (set_running g false) = set_running (hit_phase g) false).
  { unfold hit_phase. cbn [set_running projectiles enemies explosions player].
    destruct (hit_loop _ _) as [kept c]. reflexivity. }
  assert (Hb : forall x, bomb_phase (set_running x false) = set_running (bomb_phase x) false).
  { intros x. unfold bomb_phase. cbn [set_running player bombs].
    destruct (spritecollideany _ _ _) as [[i0 b0]|]; [|reflexivity].
    destruct (list_find _ _) as [[i b]|]; [|reflexivity].
    cbn. destruct (Player.lives (player x) - 1 <=? 0); reflexivity. }
  assert (Hc : forall x,
            collide_phase (set_running x false) = set_running (collide_phase x) false).
  { intros x. unfold collide_phase. cbn [set_running player enemies].
    destruct (spritecollideany _ _ _) as [[i e]|]; [|reflexivity].
    cbn. destruct (Player.lives (player x) - 1 <=? 0); reflexivity. }
  rewrite Hh, Hb, Hc. reflexivity.
Qed.

Lemma tick_from_events pf ks evs g t :
  tick pf (mkInput ks evs) g t =
  match spawn_phase (fold_left (handle_event pf) evs g) t with
  | Done g2 t1 =>
      match update_phase ks g2 with
      | Some g3 =>
          match shoot_phase g3 t1 with
          | Done g4 t2 => Done (collide_phase (bomb_phase (hit_phase g4))) t2
          | Raised e => Raised e
          | BadTape => BadTape
          end
      | None => Raised ValueError
      end
  | Raised e => Raised e
  | BadTape => BadTape
  end.
Proof.
  unfold tick, bind. cbn [events keys].
  destruct (spawn_phase _ t) as [g2 t1| |]; try reflexivity.
  destruct (update_phase ks g2) as [g3|]; cbn [lift]; [|reflexivity].
  unfold ret at 1. destruct (shoot_phase g3 t1) as [g4 t2| |]; reflexivity.
Qed.

(** X21: a QUIT event or the Escape key, anywhere among the events of a
    frame, does not cut the frame short: the tick runs as it would without
    that event (same spawn, same moves, same hits, same draws, same
    exception if any) and only ends with the loop stopped.  And no tick ever
    restarts a loop: a game that runs after a tick ran before it. *)
Theorem quit_stops_loop (pf : Platform) (g : Game) (t : Tape) :
  (forall ks evs1 evs2 ev,
     ev = QUIT \/ ev = KEYDOWN K_ESCAPE ->
     tick pf (mkInput ks (evs1 ++ ev :: evs2)) g t
     = stopped (tick pf (mkInput ks (evs1 ++ evs2)) g t)) /\
  (forall inp g' t',
     tick pf inp g t = Done g' t' -> running g' = true -> running g = true).
Proof.
  split.
  - intros ks evs1 evs2 ev Hev. rewrite !tick_from_events.
    assert (E : fold_left (handle_event pf) (evs1 ++ ev :: evs2) g
                = set_running (fold_left (handle_event pf) (evs1 ++ evs2) g) false).
    { rewrite !fold_left_app. cbn [fold_left].
      replace (handle_event pf (fold_left (handle_event pf) evs1 g) ev)
        with (set_running (fold_left (handle_event pf) evs1 g) false)
        by (destruct Hev as [-> | ->]; reflexivity).
      apply handle_events_stop. }
    rewrite E, spawn_phase_stop.
    destruct (spawn_phase _ t) as [g2 t1| |]; cbn [stopped]; try reflexivity.
    rewrite update_phase_stop.
    destruct (update_phase ks g2) as [g3|]; cbn [option_map]; [|reflexivity].
    rewrite shoot_phase_stop.
    destruct (shoot_phase g3 t1) as [g4 t2| |]; cbn [stopped]; try reflexivity.
    rewrite combat_stop. reflexivity.
  - intros inp g' t' H Hrun.
    apply tick_entry in H as (gm & -> & [_ _ Hcalm] & _).
    apply Hcalm.
    destruct (bomb_phase_vitals (hit_phase gm)) as (_ & _ & _ & Hb).
    destruct (collide_phase_vitals (bomb_phase (hit_phase gm))) as (_ & _ & _ & Hc).
    assert (Hh : running (hit_phase gm) = running gm)
      by (rewrite hit_phase_fields; reflexivity).
    unfold life_step in Hb, Hc.
    destruct Hc as [[_ Rc]|[_ Rc]]; rewrite Rc in Hrun;
      [|destruct (_ <=? 0); [discriminate|]];
      (destruct Hb as [[_ Rb]|[_ Rb]]; rewrite Rb in Hrun;
       [|destruct (_ <=? 0); [discriminate|]]; congruence).
Qed.

Lemma quit_stops_loop_witness :
  tick desktop (mkInput no_keys [KEYDOWN K_SPACE; QUIT]) before_kill []
  = Done (set_running (final (tick desktop (mkInput no_keys [KEYDOWN K_SPACE])
                                before_kill []))
                      false) [] /\
  Player.score (player (final (tick desktop (mkInput no_keys [KEYDOWN K_SPACE; QUIT])
                                 before_kill []))) = 5.
Proof.
  split.
  - pose proof (proj1 (quit_stops_loop desktop before_kill []) no_keys
                  [KEYDOWN K_SPACE] [] QUIT (or_introl eq_refl)) as H.
    cbn [app] in H. rewrite H. vm_compute. reflexivity.
  - vm_compute. reflexivity.
Defined.

(** ** Frames without randomness *)

Lemma handle_events_timer pf evs : forall g,
  spawn_timer (fold_left (handle_event pf) evs g) = spawn_timer g.
Proof.
  induction evs as [|ev evs IH]; intros g; simpl; [reflexivity|].
  rewrite IH. destruct ev as [|k|]; [| destruct k |]; cbn [handle_event]; try reflexivity.
  destruct (Player.fire pf (player g)) as [p' shots]. reflexivity.
Qed.

Lemma mapM_shoot_quiet target es :
  Forall (fun e => Enemy.kind e <> Hard) es ->
  forall t, mapM_ (shoot target) es t = Done (map (fun e => (e, [])) es) t.
Proof.
  induction 1 as [|e es He HF IH]; intros t; [reflexivity|].
  cbn [mapM_ map]. unfold bind.
  assert (Hs : shoot target e t = Done (e, []) t).
  { unfold shoot. destruct (Enemy.kind e); try reflexivity. congruence. }
  rewrite Hs, IH. reflexivity.
Qed.

(** X22: the loop draws random numbers only to spawn an enemy and to reload
    the timer of a Hard enemy that shoots.  In a frame where no spawn is due
    and no Hard enemy is alive the tick uses no draw: it leaves the tape as
    it is, and it ends in the same game whatever the tape. *)
Theorem quiet_frame (pf : Platform) (inp : Input) (g g' : Game) (t t' : Tape) :
  0 < spawn_timer g - 1 ->
  Forall (fun e => Enemy.kind e <> Hard) (enemies g) ->
  tick pf inp g t = Done g' t' ->
  t' = t /\ (forall t2, tick pf inp g t2 = Done g' t2).
Proof.
  intros Hwait Hkinds H. destruct inp as [ks evs].
  destruct (handle_events_calm pf evs g) as (_ & He1 & _).
  pose proof (handle_events_timer pf evs g) as Ht1.
  set (g1 := fold_left (handle_event pf) evs g) in *.
  assert (Hspawn : forall t0,
            spawn_phase g1 t0 = Done (with_spawn g1 (spawn_timer g1 - 1) []) t0).
  { intros t0. apply spawn_wait. lia. }
  assert (Hrun : forall t0,
            tick pf (mkInput ks evs) g t0 =
            match update_phase ks (with_spawn g1 (spawn_timer g1 - 1) []) with
            | Some g3 =>
                Done (collide_phase (bomb_phase (hit_phase
                        (mkGame (player g3)
                                (map fst (map (fun e : Enemy.t => (e, @nil Bomb.t))
                                              (enemies g3)))
                                (projectiles g3)
                                (bombs g3 ++ concat (map snd (map (fun e : Enemy.t => (e, @nil Bomb.t))
                                                               (enemies g3))))
                                (explosions g3) (spawn_timer g3) (running g3))))) t0
            | None => Raised ValueError
            end).
  { intros t0. rewrite tick_from_events. fold g1. rewrite Hspawn.
    destruct (update_phase ks _) as [g3|] eqn:Eu; [|reflexivity].
    assert (Hk3 : Forall (fun e => Enemy.kind e <> Hard) (enemies g3)).
    { apply update_phase_Some in Eu
        as (es & ps & bs & ps' & bs' & xs & Ees & _ & _ & _ & _ & _ & ->).
      cbn [enemies]. eapply update_group_keeps; [exact Ees| |].
      - intros a a' Ha Hu. apply enemy_update_keeps in Hu as [_ ->]. exact Ha.
      - cbn [with_spawn enemies]. rewrite app_nil_r, He1. exact Hkinds. }
    unfold shoot_phase, bind. rewrite (mapM_shoot_quiet _ _ Hk3). reflexivity. }
  rewrite Hrun in H.
  destruct (update_phase ks _) as [g3|] eqn:Eu; [|discriminate].
  injection H as Hg <-. split; [reflexivity|].
  intros t2. rewrite Hrun. rewrite ?Eu. rewrite Hg. reflexivity.
Qed.

Lemma quiet_frame_witness :
  tick desktop quiet before_kill [DInt 7; DUnit 0.5%float] =
  Done after_kill [DInt 7; DUnit 0.5%float].
Proof.
  apply (proj2 (quiet_frame desktop quiet before_kill after_kill [] []
                  ltac:(vm_compute; reflexivity)
                  ltac:(vm_compute; constructor; [discriminate|constructor])
                  ltac:(vm_compute; reflexivity))).
Defined.

(** ** Projectile x Enemy in the tick *)

Lemma hit_phase_nil g : projectiles g = [] -> hit_phase g = g.
Proof.
  intros H. rewrite hit_phase_fields, H.
  destruct g as [[sp r l sc el cd] es ps bs xs tm rn]. cbn in *. subst ps. reflexivity.
Qed.

Lemma hit_phase_miss g proj rest :
  projectiles g = proj :: rest ->
  Forall (fun e => Rect.colliderect (Projectile.rect proj) (Enemy.rect e) = false)
         (enemies g) ->
  hit_phase g =
  with_projectiles (hit_phase (with_projectiles g rest))
                   (proj :: projectiles (hit_phase (with_projectiles g rest))).
Proof.
  intros Hps Hnone. rewrite !hit_phase_fields, Hps, hit_loop_cons.
  rewrite (proj1 (hit_one_spec proj (combat_of g)) Hnone).
  reflexivity.
Qed.

Lemma hit_phase_hit g proj rest i hit :
  projectiles g = proj :: rest ->
  enemies g !! i = Some hit ->
  Rect.colliderect (Projectile.rect proj) (Enemy.rect hit) = true ->
  (forall j e, enemies g !! j = Some e -> (j < i)%nat ->
               Rect.colliderect (Projectile.rect proj) (Enemy.rect e) = false) ->
  (Enemy.hp hit - 1 <= 0 ->
   hit_phase g =
   hit_phase (after_hit g rest (delete i (enemies g)) (hit_explosion proj)
                        (Player.score (player g) + 5))) /\
  (0 < Enemy.hp hit - 1 ->
   hit_phase g =
   hit_phase (after_hit g rest (<[i := Enemy.set_hp hit (Enemy.hp hit - 1)]> (enemies g))
                        (hit_explosion proj) (Player.score (player g)))).
Proof.
  intros Hps Hi Hc Hfirst.
  destruct (proj1 (proj2 (hit_one_spec proj (combat_of g))) i hit Hi Hc Hfirst)
    as [Hkill Hwound].
  split; intros Hhp; rewrite !hit_phase_fields, Hps, hit_loop_cons.
  - rewrite (Hkill Hhp). reflexivity.
  - rewrite (Hwound Hhp). reflexivity.
Qed.

(** C4: in a tick the Projectile x Enemy resolution is [hit_phase], applied
    to the game as the enemy shooting step leaves it; it handles every
    projectile of the group, in order, against the enemies still alive.
    A projectile that meets no enemy's box stays in its group and changes
    nothing.  Otherwise the first enemy (in group order) whose box its box
    meets loses exactly 1 hp, whatever the projectile's element; an explosion
    is added at the centre of the projectile's box with twice its radius and
    its colour; the projectile leaves the projectile group (so it hits at
    most once); and when the enemy's hp is then <= 0 the enemy leaves its
    group and the player's score grows by 5, else the score is unchanged.
    The resolution then goes on with the remaining projectiles.  Bombs,
    lives, spawn countdown and the running flag are not touched. *)
Theorem projectile_hit (g : Game) :
  (* one iteration and the loop, on the state they change *)
  (forall proj c,
     (Forall (fun e => Rect.colliderect (Projectile.rect proj) (Enemy.rect e) = false)
             (c_enemies c) ->
      hit_one proj c = (c, true)) /\
     (forall (i : nat) (hit : Enemy.t),
        c_enemies c !! i = Some hit ->
        Rect.colliderect (Projectile.rect proj) (Enemy.rect hit) = true ->
        (forall j e, c_enemies c !! j = Some e -> (j < i)%nat ->
                     Rect.colliderect (Projectile.rect proj) (Enemy.rect e) = false) ->
        (Enemy.hp hit - 1 <= 0 ->
         hit_one proj c =
         (mkCombat (delete i (c_enemies c)) (c_explosions c ++ [hit_explosion proj])
                   (c_score c + 5), false)) /\
        (0 < Enemy.hp hit - 1 ->
         hit_one proj c =
         (mkCombat (<[i := Enemy.set_hp hit (Enemy.hp hit - 1)]> (c_enemies c))
                   (c_explosions c ++ [hit_explosion proj]) (c_score c), false))) /\
     (forall rest,
        hit_loop (proj :: rest) c =
        (if snd (hit_one proj c)
         then proj :: fst (hit_loop rest (fst (hit_one proj c)))
         else fst (hit_loop rest (fst (hit_one proj c))),
         snd (hit_loop rest (fst (hit_one proj c)))))) /\
  (* the resolution on the game: no projectile *)
  (projectiles g = [] -> hit_phase g = g) /\
  (* the resolution on the game: the first projectile of the group *)
  (forall proj rest,
     projectiles g = proj :: rest ->
     (Forall (fun e => Rect.colliderect (Projectile.rect proj) (Enemy.rect e) = false)
             (enemies g) ->
      hit_phase g =
      with_projectiles (hit_phase (with_projectiles g rest))
                       (proj :: projectiles (hit_phase (with_projectiles g rest)))) /\
     (forall (i : nat) (hit : Enemy.t),
        enemies g !! i = Some hit ->
        Rect.colliderect (Projectile.rect proj) (Enemy.rect hit) = true ->
        (forall j e, enemies g !! j = Some e -> (j < i)%nat ->
                     Rect.colliderect (Projectile.rect proj) (Enemy.rect e) = false) ->
        (Enemy.hp hit - 1 <= 0 ->
         hit_phase g =
         hit_phase (after_hit g rest (delete i (enemies g)) (hit_explosion proj)
                              (Player.score (player g) + 5))) /\
        (0 < Enemy.hp hit - 1 ->
         hit_phase g =
         hit_phase (after_hit g rest
                              (<[i := Enemy.set_hp hit (Enemy.hp hit - 1)]> (enemies g))
                              (hit_explosion proj) (Player.score (player g)))))) /\
  (* the resolution on the game: a single projectile *)
  (forall proj,
     projectiles g = [proj] ->
     (Forall (fun e => Rect.colliderect (Projectile.rect proj) (Enemy.rect e) = false)
             (enemies g) ->
      hit_phase g = g) /\
     (forall (i : nat) (hit : Enemy.t),
        enemies g !! i = Some hit ->
        Rect.colliderect (Projectile.rect proj) (Enemy.rect hit) = true ->
        (forall j e, enemies g !! j = Some e -> (j < i)%nat ->
                     Rect.colliderect (Projectile.rect proj) (Enemy.rect e) = false) ->
        (Enemy.hp hit - 1 <= 0 ->
         hit_phase g =
         after_hit g [] (delete i (enemies g)) (hit_explosion proj)
                   (Player.score (player g) + 5)) /\
        (0 < Enemy.hp hit - 1 ->
         hit_phase g =
         after_hit g [] (<[i := Enemy.set_hp hit (Enemy.hp hit - 1)]> (enemies g))
                   (hit_explosion proj) (Player.score (player g))))) /\
  (* over the whole group *)
  projectiles (hit_phase g) `sublist_of` projectiles g /\
  (length (explosions (hit_phase g)) + length (projectiles (hit_phase g))
   = length (explosions g) + length (projectiles g))%nat /\
  bombs (hit_phase g) = bombs g /\
  Player.lives (player (hit_phase g)) = Player.lives (player g) /\
  spawn_timer (hit_phase g) = spawn_timer g /\
  running (hit_phase g) = running g /\
  (* in the tick *)
  (forall pf inp t g' t',
     tick pf inp g t = Done g' t' ->
     exists g2 g3 g4 t1,
       spawn_phase (fold_left (handle_event pf) (events inp) g) t = Done g2 t1 /\
       update_phase (keys inp) g2 = Some g3 /\
       shoot_phase g3 t1 = Done g4 t' /\
       g' = collide_phase (bomb_phase (hit_phase g4))).
Proof.
  split.
  { intros proj c. destruct (hit_one_spec proj c) as (H1 & H2 & H3).
    split; [exact H1|]. split; [exact H2|]. intros rest. apply (H3 rest). }
  split; [apply hit_phase_nil|].
  split.
  { intros proj rest Hps. split; [apply hit_phase_miss; exact Hps|].
    intros i hit. apply hit_phase_hit. exact Hps. }
  split.
  { intros proj Hps. split.
    - intros Hnone. rewrite (hit_phase_miss g proj [] Hps Hnone).
      rewrite (hit_phase_nil (with_projectiles g [])) by reflexivity.
      destruct g as [p es ps bs xs tm rn]. cbn in *. subst ps. reflexivity.
    - intros i hit Hi Hc Hfirst.
      destruct (hit_phase_hit g proj [] i hit Hps Hi Hc Hfirst) as [Hkill Hwound].
      split; intros Hhp.
      + rewrite (Hkill Hhp). apply hit_phase_nil. reflexivity.
      + rewrite (Hwound Hhp). apply hit_phase_nil. reflexivity. }
  destruct (hit_loop_once (projectiles g) (combat_of g)) as [Hsub Hlen].
  rewrite hit_phase_fields.
  cbn [projectiles explosions bombs player spawn_timer running set_score Player.lives].
  split; [exact Hsub|]. split; [exact Hlen|].
  split; [reflexivity|]. split; [reflexivity|]. split; [reflexivity|].
  split; [reflexivity|].
  intros pf inp t g' t'. apply tick_phases.
Qed.

Lemma projectile_hit_witness :
  hit_phase skirmish
  = mkGame (set_score (Player.init (450, 520)) 5)
           [sample_enemy Mid (100, 100) 2; sample_enemy Hard (455, 12) 3]
           [] [] [Explosion.init (450, 5) 32 NEON_PINK] 7 true.
Proof.
  destruct (projectile_hit skirmish) as (_ & _ & _ & H & _).
  destruct (H low_shot eq_refl) as [_ Hhit].
  destruct (Hhit 1%nat (sample_enemy Beginner (450, 10) 1)) as [Hkill _].
  - reflexivity.
  - vm_compute. reflexivity.
  - intros j e Hj Hlt. destruct j as [|j]; [|lia].
    injection Hj as <-. vm_compute. reflexivity.
  - rewrite Hkill; [reflexivity|simpl; lia].
Defined.
